(** * express-raw: the rate limiter and the WebSocket admission checks

    A shallow embedding of [rateLimiter.js] (class [RateLimiter]) and of the
    admission path of [src/websocketSupport.js] (class [WebSocketSupport]),
    followed by the properties proved about them.

    Conventions of the embedding.
    - JavaScript numbers that hold counts, limits and millisecond timestamps
      are integers far below 2^53; they are modelled by [Z].
    - A [Map] iterates in insertion order.  The [requests] store is sorted and
      sliced by the janitor, so it is an association list kept in insertion
      order; the [violations] and [bans] stores are only looked up, updated
      and filtered, so they are [gmap]s.
    - [Date.now()] is read several times inside one call.  The host supplies
      the value of the n-th read; the world counts the reads made so far.
    - [new RegExp(pattern).test(path)] is a host built-in, taken as a
      parameter of the model; the patterns of [routeLimits] are taken to be
      valid regular expressions, so that the test answers and does not throw.
    - [req.method] is an HTTP method name, never the name of a property that
      a plain object inherits, so [methodLimits[method]] is a configured limit
      or undefined.
    - Callbacks supplied by the application ([onBan], [handler], the logger)
      are outside the model; what the limiter does around them is in it. *)

From stdpp Require Import base numbers list strings gmap sorting pretty.
From Stdlib Require Import ZArith Lia.

Local Open Scope Z_scope.

(** ** The host environment *)

Class Host := {
  (** the value returned by the n-th call of [Date.now()] *)
  Date_now : nat → Z;
  (** [RegExp_test pattern s] is [new RegExp(pattern).test(s)] *)
  RegExp_test : string → string → bool
}.

(** ** JavaScript helpers *)

(** [x || d] on a number that may be undefined: 0 is falsy. *)
Definition js_or (x : option Z) (d : Z) : Z :=
  match x with
  | Some v => if decide (v = 0) then d else v
  | None => d
  end.

(** The string an array element contributes to [Array.prototype.join]:
    undefined contributes the empty string. *)
Definition js_str (x : option string) : string :=
  match x with
  | Some s => s
  | None => ""%string
  end.

(** [parts.join(':')] *)
Fixpoint join_colon (parts : list (option string)) : string :=
  match parts with
  | [] => ""%string
  | [p] => js_str p
  | p :: rest => (js_str p +:+ ":" +:+ join_colon rest)%string
  end.

(** [Math.ceil(x / 1000)] on an integer. *)
Definition ceil_div_1000 (x : Z) : Z := - ((- x) `div` 1000).

(** [arr.slice(0, e)]: a negative end counts from the end of the array. *)
Definition slice0 {A} (e : Z) (l : list A) : list A :=
  if decide (e < 0) then take (Z.to_nat (Z.of_nat (length l) + e)) l
  else take (Z.to_nat e) l.

(** ** Insertion-ordered [Map] with string keys *)

Module JsMap.

Abbreviation t V := (list (string * V)).

Fixpoint get {V} (k : string) (m : t V) : option V :=
  match m with
  | [] => None
  | (k', v) :: m' => if decide (k' = k) then Some v else get k m'
  end.

(** [set] keeps the position of a key already present and appends a new one. *)
Fixpoint set {V} (k : string) (v : V) (m : t V) : t V :=
  match m with
  | [] => [(k, v)]
  | (k', v') :: m' =>
      if decide (k' = k) then (k, v) :: m' else (k', v') :: set k v m'
  end.

Definition delete {V} (k : string) (m : t V) : t V :=
  filter (λ e, e.1 ≠ k) m.

Definition size {V} (m : t V) : Z := Z.of_nat (length m).

Definition keys {V} (m : t V) : list string := m.*1.

(** The representation invariant of a [Map]: no key occurs twice. *)
Definition wf {V} (m : t V) : Prop := NoDup (keys m).

End JsMap.

(** ** The rate limiter: data *)

Record Req := {
  ip : option string;      (* req.ip, undefined when unresolved *)
  path : string;           (* req.path *)
  method : string          (* req.method *)
}.

Record WindowRecord := {
  w_count : Z;
  w_firstRequest : Z;
  w_requests : list Z
}.

Record ViolationRecord := {
  v_count : Z;
  v_timestamps : list Z
}.

Record BanRecord := {
  b_timestamp : Z;
  b_violations : Z;
  b_expiresAt : Z
}.

Record AutoBan := {
  enabled : bool;
  maxViolations : Z;
  banDurationMs : Z;
  banMessage : string
}.

Record Config := {
  windowMs : Z;
  maxRequests : Z;
  windowType : string;
  statusCode : Z;
  message : string;
  headers : bool;
  skipSuccessfulRequests : bool;
  skipFailedRequests : bool;
  skipOptions : bool;
  routeLimits : list (string * Z);   (* in Object.entries order *)
  methodLimits : gmap string Z;
  whitelist : list string;
  blacklist : list string;
  autoBan : AutoBan;
  cleanupInterval : Z;
  maxStoreSize : Z;
  keyGenerator : Req → option string;
  skip : Req → bool;
  handler : bool                      (* a custom handler is configured *)
}.

(** The options object given to the constructor; an absent option is [None]. *)
Record RawConfig := {
  r_windowMs : option Z;
  r_maxRequests : option Z;
  r_windowType : option string;
  r_statusCode : option Z;
  r_message : option string;
  r_headers : option bool;
  r_skipSuccessfulRequests : option bool;
  r_skipFailedRequests : option bool;
  r_skipOptions : option bool;
  r_routeLimits : option (list (string * Z));
  r_methodLimits : option (gmap string Z);
  r_whitelist : option (list string);
  r_blacklist : option (list string);
  r_autoBan_enabled : option bool;
  r_autoBan_maxViolations : option Z;
  r_autoBan_banDurationMs : option Z;
  r_autoBan_banMessage : option string;
  r_cleanupInterval : option Z;
  r_maxStoreSize : option Z;
  r_keyGenerator : option (Req → option string);
  r_skip : option (Req → bool);
  r_handler : bool
}.

(** [s || d] on a string that may be undefined: the empty string is falsy. *)
Definition js_or_str (x : option string) (d : string) : string :=
  match x with
  | Some s => if decide (s = ""%string) then d else s
  | None => d
  end.

(** The default denial message; it contains a line feed. *)
Definition default_message : string :=
  ("Too many requests, please try again later" +:+
   String (Ascii.ascii_of_nat 10) "-express-raw")%string.

(** The [config] built by the constructor. *)
Definition constructor (c : RawConfig) : Config := {|
  windowMs := js_or (r_windowMs c) (60 * 1000);
  maxRequests := js_or (r_maxRequests c) 100;
  windowType := js_or_str (r_windowType c) "sliding";
  statusCode := js_or (r_statusCode c) 429;
  message := js_or_str (r_message c) default_message;
  headers := default true (r_headers c);
  skipSuccessfulRequests := default false (r_skipSuccessfulRequests c);
  skipFailedRequests := default false (r_skipFailedRequests c);
  skipOptions := default false (r_skipOptions c);
  routeLimits := default [] (r_routeLimits c);
  methodLimits := default ∅ (r_methodLimits c);
  whitelist := default [] (r_whitelist c);
  blacklist := default [] (r_blacklist c);
  autoBan := {|
    enabled := default false (r_autoBan_enabled c);
    maxViolations := js_or (r_autoBan_maxViolations c) 5;
    banDurationMs := js_or (r_autoBan_banDurationMs c) (24 * 60 * 60 * 1000);
    banMessage := js_or_str (r_autoBan_banMessage c)
                    "You have been banned due to too many violations"
  |};
  cleanupInterval := js_or (r_cleanupInterval c) (5 * 60 * 1000);
  maxStoreSize := js_or (r_maxStoreSize c) 10000;
  keyGenerator := default ip (r_keyGenerator c);
  skip := default (λ _, false) (r_skip c);
  handler := r_handler c
|}.

(** [new RateLimiter({})] *)
Definition emptyRaw : RawConfig := {|
  r_windowMs := None; r_maxRequests := None; r_windowType := None;
  r_statusCode := None; r_message := None; r_headers := None;
  r_skipSuccessfulRequests := None; r_skipFailedRequests := None;
  r_skipOptions := None; r_routeLimits := None; r_methodLimits := None;
  r_whitelist := None; r_blacklist := None; r_autoBan_enabled := None;
  r_autoBan_maxViolations := None; r_autoBan_banDurationMs := None;
  r_autoBan_banMessage := None; r_cleanupInterval := None;
  r_maxStoreSize := None; r_keyGenerator := None; r_skip := None;
  r_handler := false
|}.

(** [this.store], together with the number of clock reads made so far. *)
Record World := {
  requests : JsMap.t WindowRecord;
  violations : gmap string ViolationRecord;
  bans : gmap string BanRecord;
  reads : nat
}.

Definition emptyWorld : World :=
  {| requests := []; violations := ∅; bans := ∅; reads := 0 |}.

(** ** The state monad of the embedding *)

Definition ST (S A : Type) : Type := S → A * S.

Definition ret {S A} (a : A) : ST S A := λ w, (a, w).

Definition bind {S A B} (c : ST S A) (k : A → ST S B) : ST S B :=
  λ w, let '(a, w') := c w in k a w'.

Notation "'let*' x ':=' c 'in' k" := (bind c (λ x, k))
  (at level 10, x name, c at level 100, k at level 200).

Notation "c ';;' k" := (bind c (λ _, k))
  (at level 100, k at level 200, right associativity).

Definition getState {S} : ST S S := λ w, (w, w).

Abbreviation M := (ST World).

Definition set_requests (f : JsMap.t WindowRecord → JsMap.t WindowRecord) : M unit :=
  λ w, (tt, {| requests := f (requests w); violations := violations w;
               bans := bans w; reads := reads w |}).

Definition set_violations
    (f : gmap string ViolationRecord → gmap string ViolationRecord) : M unit :=
  λ w, (tt, {| requests := requests w; violations := f (violations w);
               bans := bans w; reads := reads w |}).

Definition set_bans (f : gmap string BanRecord → gmap string BanRecord) : M unit :=
  λ w, (tt, {| requests := requests w; violations := violations w;
               bans := f (bans w); reads := reads w |}).

(** [Date.now()] *)
Definition now `{Host} : M Z :=
  λ w, (Date_now (reads w),
        {| requests := requests w; violations := violations w;
           bans := bans w; reads := S (reads w) |}).

(** ** The rate limiter: operations *)

Section RateLimiter.
Context `{host : Host}.
Variable cfg : Config.

(** [generateKey(req)] *)
Definition generateKey (req : Req) : string :=
  let baseKey := keyGenerator cfg req in
  let parts := [baseKey] in
  let parts :=
    if decide (routeLimits cfg = []) then parts else parts ++ [Some (path req)] in
  let parts :=
    if decide (methodLimits cfg = ∅) then parts else parts ++ [Some (method req)] in
  join_colon parts.

(** The loop of [getRouteLimit]: the first pattern that matches returns. *)
Fixpoint routeLimitFrom (entries : list (string * Z)) (p : string) : Z :=
  match entries with
  | [] => maxRequests cfg
  | (pattern, limit) :: rest =>
      if RegExp_test pattern p then limit else routeLimitFrom rest p
  end.

(** [getRouteLimit(path)] *)
Definition getRouteLimit (p : string) : Z := routeLimitFrom (routeLimits cfg) p.

(** [getMethodLimit(method)] *)
Definition getMethodLimit (m : string) : Z :=
  js_or (methodLimits cfg !! m) (maxRequests cfg).

(** [banIP(key, req)]; the [onBan] callback is external and not modelled. *)
Definition banIP (key : string) : M unit :=
  let* t1 := now in
  let* w := getState in
  let viol := js_or (v_count <$> violations w !! key) 0 in
  let* t2 := now in
  let banData := {| b_timestamp := t1; b_violations := viol;
                    b_expiresAt := t2 + banDurationMs (autoBan cfg) |} in
  set_bans (insert key banData).

(** [handleViolation(key, req)] *)
Definition handleViolation (key : string) : M unit :=
  let* w := getState in
  let v := default {| v_count := 0; v_timestamps := [] |} (violations w !! key) in
  let* t := now in
  let v' := {| v_count := v_count v + 1; v_timestamps := v_timestamps v ++ [t] |} in
  set_violations (insert key v') ;;
  if enabled (autoBan cfg) && bool_decide (maxViolations (autoBan cfg) ≤ v_count v')
  then banIP key
  else ret tt.

(** The limit [isRateLimited] compares the count with. *)
Definition effectiveLimit (req : Req) : Z :=
  Z.min (getRouteLimit (path req)) (getMethodLimit (method req)).

(** The window step of [isRateLimited], before the current request is added. *)
Definition slideOrReset (t : Z) (data : WindowRecord) : WindowRecord :=
  if decide (windowType cfg = "sliding"%string) then
    let rs := filter (λ time, t - time < windowMs cfg) (w_requests data) in
    {| w_count := Z.of_nat (length rs);
       w_firstRequest := w_firstRequest data;
       w_requests := rs |}
  else
    let windowStart := t `div` windowMs cfg * windowMs cfg in
    if decide (w_firstRequest data < windowStart) then
      {| w_count := 0; w_firstRequest := t; w_requests := [] |}
    else data.

(** [isRateLimited(key, req)] *)
Definition isRateLimited (key : string) (req : Req) : M bool :=
  let* t := now in
  let* w := getState in
  let data := default {| w_count := 0; w_firstRequest := t; w_requests := [] |}
                      (JsMap.get key (requests w)) in
  let limit := effectiveLimit req in
  let data := slideOrReset t data in
  let data := {| w_count := w_count data + 1;
                 w_firstRequest := w_firstRequest data;
                 w_requests := w_requests data ++ [t] |} in
  set_requests (JsMap.set key data) ;;
  if decide (limit < w_count data) then
    handleViolation key ;; ret true
  else ret false.

(** [isIPBanned(key)]: the clock is read only when a ban is stored. *)
Definition isIPBanned (key : string) : M bool :=
  let* w := getState in
  match bans w !! key with
  | None => ret false
  | Some ban =>
      let* t := now in
      if decide (b_expiresAt ban < t) then
        set_bans (delete key) ;; ret false
      else ret true
  end.

Record RateLimitInfo := {
  i_requests : Z;
  i_remaining : Z;
  i_violations : Z;
  i_banned : bool;
  i_banExpiry : option Z;
  i_resetTime : Z
}.

(** [getRateLimitInfo(key)] *)
Definition getRateLimitInfo (key : string) : M RateLimitInfo :=
  let* w := getState in
  let data := JsMap.get key (requests w) in
  let viol := violations w !! key in
  let ban := bans w !! key in
  let* banned := isIPBanned key in
  let* resetTime :=
    match data with
    | Some d => ret (w_firstRequest d + windowMs cfg)
    | None => now
    end in
  ret {| i_requests := js_or (w_count <$> data) 0;
         i_remaining := Z.max 0 (maxRequests cfg - js_or (w_count <$> data) 0);
         i_violations := js_or (v_count <$> viol) 0;
         i_banned := banned;
         i_banExpiry := b_expiresAt <$> ban;
         i_resetTime := resetTime |}.

(** What the middleware sends when it denies a request. *)
Record Response := {
  res_status : Z;
  res_body : string;
  (** X-RateLimit-Limit, -Remaining, -Reset and, for a ban, -Ban-Expires
      (absent [banExpiry] prints as NaN, modelled by [None]) *)
  res_headers : option (Z * Z * Z * option (option Z))
}.

Inductive Reply :=
  | CustomHandler (key : string)
  | Sent (r : Response).

(** The outcome of the middleware: [next()] was called, or the request was
    denied, as a ban ([isBanned = true]) or as a rate limit. *)
Inductive Outcome :=
  | Next
  | Denied (isBanned : bool) (r : Reply).

(** [handleRateLimit(req, res, key, logger, isBanned)] *)
Definition handleRateLimit (key : string) (isBanned : bool) : M Outcome :=
  if handler cfg then ret (Denied isBanned (CustomHandler key))
  else
    let* hdrs :=
      if headers cfg then
        let* info := getRateLimitInfo key in
        ret (Some (maxRequests cfg, i_remaining info,
                   ceil_div_1000 (i_resetTime info),
                   if isBanned then Some (ceil_div_1000 <$> i_banExpiry info)
                   else None))
      else ret None in
    let body := if isBanned then banMessage (autoBan cfg) else message cfg in
    ret (Denied isBanned
           (Sent {| res_status := statusCode cfg; res_body := body;
                    res_headers := hdrs |})).

(** The function returned by [middleware(logger)], applied to a request.
    [logRateLimit] is [logger?.config.enabled.rateLimit]. *)
Definition middleware (logRateLimit : bool) (req : Req) : M Outcome :=
  if skip cfg req then ret Next
  else if skipOptions cfg && bool_decide (method req = "OPTIONS"%string) then ret Next
  else
    let key := generateKey req in
    if bool_decide (key ∈ whitelist cfg) then ret Next
    else if bool_decide (key ∈ blacklist cfg) then handleRateLimit key false
    else
      let* banned := isIPBanned key in
      if banned then handleRateLimit key true
      else
        let* limited := isRateLimited key req in
        if limited then
          (if logRateLimit then getRateLimitInfo key ;; ret tt else ret tt) ;;
          handleRateLimit key false
        else ret Next.

(** The ['finish'] listener the middleware registers on an admitted request
    when [skipSuccessfulRequests] or [skipFailedRequests] is set. *)
Definition onFinish (key : string) (resStatus : Z) : M unit :=
  let successful := bool_decide (resStatus < 400) in
  if (successful && skipSuccessfulRequests cfg)
     || (negb successful && skipFailedRequests cfg) then
    set_requests (λ m,
      match JsMap.get key m with
      | Some data =>
          JsMap.set key {| w_count := w_count data - 1;
                           w_firstRequest := w_firstRequest data;
                           w_requests := removelast (w_requests data) |} m
      | None => m
      end)
  else ret tt.

(** [reset(key)] *)
Definition reset (key : option string) : M unit :=
  match key with
  | Some k =>
      if decide (k = ""%string) then
        set_requests (λ _, []) ;; set_violations (λ _, ∅) ;; set_bans (λ _, ∅)
      else
        set_requests (JsMap.delete k) ;; set_violations (delete k) ;;
        set_bans (delete k)
  | None => set_requests (λ _, []) ;; set_violations (λ _, ∅) ;; set_bans (λ _, ∅)
  end.

(** The comparator of the janitor's sort is [a.firstRequest - b.firstRequest];
    [Array.prototype.sort] is stable, so an entry goes before the first entry
    that is not older than it. *)
Fixpoint insertByFirstRequest (e : string * WindowRecord)
    (l : list (string * WindowRecord)) : list (string * WindowRecord) :=
  match l with
  | [] => [e]
  | e' :: l' =>
      if decide (w_firstRequest e.2 ≤ w_firstRequest e'.2) then e :: e' :: l'
      else e' :: insertByFirstRequest e l'
  end.

Definition sortByFirstRequest (l : list (string * WindowRecord))
    : list (string * WindowRecord) :=
  foldr insertByFirstRequest [] l.

(** What the janitor keeps of a violation record at time [t]. *)
Definition pruneViolation (t : Z) (v : ViolationRecord) : option ViolationRecord :=
  let ts := filter (λ time, t - time < windowMs cfg * 2) (v_timestamps v) in
  if decide (length ts = 0%nat) then None
  else Some {| v_count := Z.of_nat (length ts); v_timestamps := ts |}.

(** The keys the janitor deletes under capacity pressure;
    [Math.floor(maxStoreSize * 0.2)] is [maxStoreSize `div` 5] on an integer. *)
Definition entriesToDelete (m : JsMap.t WindowRecord) : list string :=
  (slice0 (maxStoreSize cfg `div` 5) (sortByFirstRequest m)).*1.

(** One run of the callback [startCleanup] registers with [setInterval]:
    a janitor sweep. *)
Definition cleanupTick : M unit :=
  let* t := now in
  set_requests (filter (λ e, ¬ (windowMs cfg < t - w_firstRequest e.2))) ;;
  set_bans (filter (λ e, ¬ (b_expiresAt e.2 < t))) ;;
  set_violations (omap (pruneViolation t)) ;;
  let* w := getState in
  if decide (maxStoreSize cfg < JsMap.size (requests w)) then
    set_requests (λ m, foldl (λ m k, JsMap.delete k m) m (entriesToDelete m))
  else ret tt.

(** *** The limit as the specification words it

    The limits of all the route patterns that match the path. *)
Definition matchingLimits (p : string) : list Z :=
  (filter (λ e, RegExp_test e.1 p = true) (routeLimits cfg)).*2.

(** The route limits and the method limit that apply to a request. *)
Definition applicableLimits (req : Req) : list Z :=
  matchingLimits (path req) ++
  match methodLimits cfg !! method req with
  | Some l => [l]
  | None => []
  end.

(** "The minimum of any applicable route-specific limit and method-specific
    limit; absent both, falls back to the global default; when multiple route
    patterns match, all matching limits are considered and the minimum
    applies." *)
Definition specEffectiveLimit (req : Req) : Z :=
  match applicableLimits req with
  | [] => maxRequests cfg
  | l :: ls => foldr Z.min l ls
  end.

End RateLimiter.

(** ** The WebSocket admission path: data *)

Record WsConfig := {
  maxConnections : Z;
  rl_enabled : bool;             (* rateLimiting.enabled *)
  maxConnectionsPerIP : Z;       (* rateLimiting.maxConnectionsPerIP *)
  rl_windowMs : Z;               (* rateLimiting.windowMs *)
  maxMessages : Z;               (* rateLimiting.maxMessages *)
  auth_enabled : bool            (* auth.enabled *)
}.

Record Limiter := {
  l_count : Z;
  l_resetTime : Z
}.

Record Connection := {
  c_ip : string;
  c_connectTime : Z;
  c_lastPing : Z;
  c_messageCount : Z;
  c_bytesReceived : Z
}.

Record WsWorld := {
  connections : gmap string Connection;
  rateLimiters : gmap string Limiter;
  totalConnections : Z;
  activeConnections : Z;
  messagesReceived : Z;
  bandwidthIn : Z;
  errors : Z;
  ws_reads : nat
}.

Definition wsEmpty : WsWorld :=
  {| connections := ∅; rateLimiters := ∅; totalConnections := 0;
     activeConnections := 0; messagesReceived := 0; bandwidthIn := 0;
     errors := 0; ws_reads := 0 |}.

Abbreviation WsM := (ST WsWorld).

(** How a connection attempt ends: set up, or closed with code 4000 and the
    message of the error thrown. *)
Inductive ConnectResult :=
  | Connected
  | Closed4000 (reason : string).

(** ** The WebSocket admission path: operations *)

Section WebSocketSupport.
Context `{host : Host}.
Variable cfg : WsConfig.

Definition ws_now : WsM Z :=
  λ w, (Date_now (ws_reads w),
        {| connections := connections w; rateLimiters := rateLimiters w;
           totalConnections := totalConnections w;
           activeConnections := activeConnections w;
           messagesReceived := messagesReceived w; bandwidthIn := bandwidthIn w;
           errors := errors w; ws_reads := S (ws_reads w) |}).

Definition set_rateLimiters
    (f : gmap string Limiter → gmap string Limiter) : WsM unit :=
  λ w, (tt, {| connections := connections w; rateLimiters := f (rateLimiters w);
               totalConnections := totalConnections w;
               activeConnections := activeConnections w;
               messagesReceived := messagesReceived w;
               bandwidthIn := bandwidthIn w;
               errors := errors w; ws_reads := ws_reads w |}).

Definition set_connections
    (f : gmap string Connection → gmap string Connection) : WsM unit :=
  λ w, (tt, {| connections := f (connections w); rateLimiters := rateLimiters w;
               totalConnections := totalConnections w;
               activeConnections := activeConnections w;
               messagesReceived := messagesReceived w;
               bandwidthIn := bandwidthIn w;
               errors := errors w; ws_reads := ws_reads w |}).

(** [stats.totalConnections += dt; stats.activeConnections += da] *)
Definition add_connectionStats (dt da : Z) : WsM unit :=
  λ w, (tt, {| connections := connections w; rateLimiters := rateLimiters w;
               totalConnections := totalConnections w + dt;
               activeConnections := activeConnections w + da;
               messagesReceived := messagesReceived w;
               bandwidthIn := bandwidthIn w;
               errors := errors w; ws_reads := ws_reads w |}).

(** [stats.messagesReceived++; stats.bandwidth.in += len] *)
Definition add_messageStats (len : Z) : WsM unit :=
  λ w, (tt, {| connections := connections w; rateLimiters := rateLimiters w;
               totalConnections := totalConnections w;
               activeConnections := activeConnections w;
               messagesReceived := messagesReceived w + 1;
               bandwidthIn := bandwidthIn w + len;
               errors := errors w; ws_reads := ws_reads w |}).

(** [stats.errors++], all that [handleError] does to the state. *)
Definition handleError : WsM unit :=
  λ w, (tt, {| connections := connections w; rateLimiters := rateLimiters w;
               totalConnections := totalConnections w;
               activeConnections := activeConnections w;
               messagesReceived := messagesReceived w;
               bandwidthIn := bandwidthIn w;
               errors := errors w + 1; ws_reads := ws_reads w |}).

(** [checkRateLimit(ip)]; the [setTimeout] it registers fires later, as
    [limiterTimeout]. *)
Definition checkRateLimit (ip : string) : WsM bool :=
  let* w := getState in
  (match rateLimiters w !! ip with
   | Some _ => ret tt
   | None =>
       let* t := ws_now in
       set_rateLimiters
         (insert ip {| l_count := 0; l_resetTime := t + rl_windowMs cfg |})
   end) ;;
  let* w := getState in
  let limiter := default {| l_count := 0; l_resetTime := 0 |} (rateLimiters w !! ip) in
  ret (bool_decide (maxConnectionsPerIP cfg ≤ l_count limiter)).

(** The callback of the [setTimeout] registered by [checkRateLimit]. *)
Definition limiterTimeout (ip : string) : WsM unit :=
  set_rateLimiters (delete ip).

(** [setupConnection(ws, req, connectionId, logger)]: the stored record. *)
Definition setupConnection (connectionId ip : string) : WsM unit :=
  let* t1 := ws_now in
  let* t2 := ws_now in
  set_connections
    (insert connectionId
       {| c_ip := ip; c_connectTime := t1; c_lastPing := t2;
          c_messageCount := 0; c_bytesReceived := 0 |}).

(** The ['connection'] listener of [setupServer].  [authOk] tells whether the
    configured [auth.handler] resolved; it is consulted only when
    [auth.enabled].  With [auth.enabled] the listener awaits the handler, and
    a timer may close the socket with 'Authentication timeout' meanwhile; that
    timer, and errors thrown by the application's callbacks once the
    connection is set up, are outside the model: it is exact for the two
    checks that precede authentication and for the listener without
    authentication. *)
Definition onConnection (connectionId ip : string) (authOk : bool)
    : WsM ConnectResult :=
  let* w := getState in
  if decide (maxConnections cfg ≤ activeConnections w) then
    ret (Closed4000 "Max connections reached")
  else
    let* isLimited :=
      if rl_enabled cfg then checkRateLimit ip else ret false in
    if isLimited then ret (Closed4000 "Rate limit exceeded")
    else if auth_enabled cfg && negb authOk then
      ret (Closed4000 "Authentication failed")
    else
      setupConnection connectionId ip ;;
      add_connectionStats 1 1 ;;
      ret Connected.

(** [handleMessage(connectionId, data, logger)]; [len] is [data.length].
    The result is [false] when 'Message rate limit exceeded' is thrown. *)
Definition handleMessage (connectionId : string) (len : Z) : WsM bool :=
  let* w := getState in
  match connections w !! connectionId with
  | None => ret true
  | Some c =>
      set_connections
        (insert connectionId
           {| c_ip := c_ip c; c_connectTime := c_connectTime c;
              c_lastPing := c_lastPing c;
              c_messageCount := c_messageCount c + 1;
              c_bytesReceived := c_bytesReceived c + len |}) ;;
      add_messageStats len ;;
      if rl_enabled cfg then
        match rateLimiters w !! c_ip c with
        | Some l =>
            set_rateLimiters
              (insert (c_ip c)
                 {| l_count := l_count l + 1; l_resetTime := l_resetTime l |}) ;;
            ret (bool_decide (l_count l + 1 ≤ maxMessages cfg))
        | None => ret true
        end
      else ret true
  end.

(** The ['message'] listener: an error thrown by [handleMessage] is handed
    to [handleError]. *)
Definition onMessage (connectionId : string) (len : Z) : WsM unit :=
  let* ok := handleMessage connectionId len in
  if ok then ret tt else handleError.

(** [handleClose(connectionId, code, reason, logger)] *)
Definition handleClose (connectionId : string) : WsM unit :=
  let* w := getState in
  match connections w !! connectionId with
  | None => ret tt
  | Some _ =>
      add_connectionStats 0 (-1) ;;
      set_connections (delete connectionId)
  end.

(** [n] connection attempts in a row from one address, with the given
    connection ids; the results are listed in order. *)
Fixpoint connectAll (ids : list string) (ip : string) : WsM (list ConnectResult) :=
  match ids with
  | [] => ret []
  | id :: rest =>
      let* r := onConnection id ip true in
      let* rs := connectAll rest ip in
      ret (r :: rs)
  end.

End WebSocketSupport.

(** ** Vocabulary of the statements *)

(** [olderEq a b]: the entry [a] was first seen no later than [b]. *)
Definition olderEq (a b : string * WindowRecord) : Prop :=
  w_firstRequest a.2 ≤ w_firstRequest b.2.

(** The entries the idle cleanup of the janitor keeps at time [t]. *)
Definition live (cfg : Config) (t : Z) (m : JsMap.t WindowRecord)
    : JsMap.t WindowRecord :=
  filter (λ e, ¬ (windowMs cfg < t - w_firstRequest e.2)) m.

(** The invariant of a violation record: the count is the length of the
    timestamp sequence. *)
Definition violationOk (v : ViolationRecord) : Prop :=
  v_count v = Z.of_nat (length (v_timestamps v)).

(** The world [w] with other violation and ban stores. *)
Definition withStores (w : World) (v : gmap string ViolationRecord)
    (b : gmap string BanRecord) : World :=
  {| requests := requests w; violations := v; bans := b; reads := reads w |}.

(** The invariant of the stores: the request store is a well-formed map and
    every violation record has [count == len(timestamps)]. *)
Definition storesOk (w : World) : Prop :=
  JsMap.wf (requests w) ∧ map_Forall (λ _ r, violationOk r) (violations w).

(** The computation [c] keeps the property [I] of the world. *)
Definition preserves {A} (I : World → Prop) (c : M A) : Prop :=
  ∀ w, I w → I (c w).2.

(** The worlds a limiter can be in: it starts with empty stores, and its
    methods, the janitor and the ['finish'] listeners run one after the
    other. *)
Inductive reachable `{Host} (cfg : Config) : World → Prop :=
  | reach_new : reachable cfg emptyWorld
  | reach_middleware lg req w :
      reachable cfg w → reachable cfg (middleware cfg lg req w).2
  | reach_cleanupTick w :
      reachable cfg w → reachable cfg (cleanupTick cfg w).2
  | reach_onFinish key resStatus w :
      reachable cfg w → reachable cfg (onFinish cfg key resStatus w).2
  | reach_isRateLimited key req w :
      reachable cfg w → reachable cfg (isRateLimited cfg key req w).2
  | reach_handleViolation key w :
      reachable cfg w → reachable cfg (handleViolation cfg key w).2
  | reach_banIP key w :
      reachable cfg w → reachable cfg (banIP cfg key w).2
  | reach_isIPBanned key w :
      reachable cfg w → reachable cfg (isIPBanned key w).2
  | reach_getRateLimitInfo key w :
      reachable cfg w → reachable cfg (getRateLimitInfo cfg key w).2
  | reach_reset key w :
      reachable cfg w → reachable cfg (reset key w).2.

(** The delimiter of [generateKey]. *)
Definition colon : Ascii.ascii := Ascii.ascii_of_nat 58.

(** [colonFree s]: the delimiter does not occur in [s]. *)
Fixpoint colonFree (s : string) : bool :=
  match s with
  | EmptyString => true
  | String c s' => negb (Ascii.eqb c colon) && colonFree s'
  end.

(** The configuration [cfg] with other allow and deny lists. *)
Definition withLists (cfg : Config) (wl bl : list string) : Config := {|
  windowMs := windowMs cfg; maxRequests := maxRequests cfg;
  windowType := windowType cfg; statusCode := statusCode cfg;
  message := message cfg; headers := headers cfg;
  skipSuccessfulRequests := skipSuccessfulRequests cfg;
  skipFailedRequests := skipFailedRequests cfg;
  skipOptions := skipOptions cfg; routeLimits := routeLimits cfg;
  methodLimits := methodLimits cfg; whitelist := wl; blacklist := bl;
  autoBan := autoBan cfg; cleanupInterval := cleanupInterval cfg;
  maxStoreSize := maxStoreSize cfg; keyGenerator := keyGenerator cfg;
  skip := skip cfg; handler := handler cfg
|}.

(** No message has been counted against the address [ip]: its limiter, if
    it has one, still has the count 0 it was created with. *)
Definition noMessagesYet (ip : string) (w : WsWorld) : Prop :=
  ∀ l, rateLimiters w !! ip = Some l → l_count l = 0.

(** ** Concrete hosts, configurations and traces

    Used to evaluate the model on explicit inputs. *)

(** [containsb p s]: the string [p] occurs in [s].  For a pattern [p] without
    regular-expression metacharacters this is [new RegExp(p).test(s)]. *)
Fixpoint containsb (p s : string) : bool :=
  String.prefix p s ||
  match s with
  | EmptyString => false
  | String _ s' => containsb p s'
  end.

(** A clock whose successive readings are the elements of [l], the last one
    repeating. *)
Definition clockOf (l : list Z) : nat → Z := λ n, nth n l (List.last l 0).

Definition hostOf (l : list Z) : Host :=
  {| Date_now := clockOf l; RegExp_test := containsb |}.

(** The middleware applied to the requests of a list, one after the other. *)
Fixpoint serve `{Host} (cfg : Config) (reqs : list Req) : M (list Outcome) :=
  match reqs with
  | [] => ret []
  | r :: rest =>
      let* o := middleware cfg false r in
      let* os := serve cfg rest in
      ret (o :: os)
  end.

Definition get_ (p : string) (a : string) : Req :=
  {| ip := Some a; path := p; method := "GET" |}.

(** An options object that sets the listed options and no other. *)
Definition rawOf (wms maxReq : option Z) (routes : option (list (string * Z)))
    (methods : option (gmap string Z)) (ab : option bool)
    (abMax store : option Z) (skipOpt : option bool) : RawConfig := {|
  r_windowMs := wms; r_maxRequests := maxReq; r_windowType := None;
  r_statusCode := None; r_message := None; r_headers := None;
  r_skipSuccessfulRequests := None; r_skipFailedRequests := None;
  r_skipOptions := skipOpt; r_routeLimits := routes; r_methodLimits := methods;
  r_whitelist := None; r_blacklist := None; r_autoBan_enabled := ab;
  r_autoBan_maxViolations := abMax; r_autoBan_banDurationMs := None;
  r_autoBan_banMessage := None; r_cleanupInterval := None;
  r_maxStoreSize := store; r_keyGenerator := None; r_skip := None;
  r_handler := false
|}.

(** Two overlapping route patterns, the wider one first. *)
Definition cfgOverlap : Config :=
  constructor
    (rawOf None None (Some [("/api", 2); ("/api/auth", 1)]%string)
       None None None None None).

Definition reqLogin : Req := get_ "/api/auth/login" "10.0.0.1".

(** 150 requests from 150 addresses at times 1 .. 150, then a clock reading
    of 200, with [maxStoreSize = 100]. *)
Definition h150 : Host := hostOf ((Z.of_nat <$> seq 1 150) ++ [200]).

Definition cfg100 : Config :=
  constructor (rawOf None None None None None None (Some 100) None).

Definition reqs150 : list Req := (λ n : nat, get_ "/" (pretty n)) <$> seq 0 150.

Definition w150 : World := (serve (H := h150) cfg100 reqs150 emptyWorld).2.

(** A window of one second and one request per window; auto-ban as given. *)
Definition cfgTight (ab : option bool) (abMax : option Z) : Config :=
  constructor (rawOf (Some 1000) (Some 1) None None ab abMax None None).

Definition reqA : Req := get_ "/" "a".

(** Requests at 0 and 900, the second a violation; the next reading is 1500. *)
Definition hSweep : Host := hostOf [0; 900; 900; 1500].

Definition wSweep : World :=
  (serve (H := hSweep) (cfgTight None None) [reqA; reqA] emptyWorld).2.

(** Requests at 0, 10, 5000 and 5001; the second and the fourth are
    violations, 4991 ms apart, and no sweep runs in between. *)
Definition hFar : Host := hostOf [0; 10; 10; 5000; 5001; 5001].

Definition cfgBan2 : Config := cfgTight (Some true) (Some 2).

Definition wFar : World :=
  (serve (H := hFar) cfgBan2 [reqA; reqA; reqA; reqA] emptyWorld).2.

(** Auto-ban disabled (the default), [maxViolations = 2]; requests at 0, 1
    and 2, of which the last two are violations. *)
Definition cfgNoBan : Config := cfgTight None (Some 2).

Definition hThree : Host := hostOf [0; 1; 1; 2; 2].

Definition wThree : World :=
  (serve (H := hThree) cfgNoBan [reqA; reqA; reqA] emptyWorld).2.

(** [skipOptions] set, auto-ban after one violation; two GET requests ban the
    address, then the clock reads 2. *)
Definition cfgSkipOptions : Config :=
  constructor
    (rawOf (Some 1000) (Some 1) None None (Some true) (Some 1) None (Some true)).

Definition hBanned : Host := hostOf [0; 1; 1; 1; 1; 1; 2].

Definition wBanned : World :=
  (serve (H := hBanned) cfgSkipOptions [reqA; reqA] emptyWorld).2.

Definition reqOptions : Req :=
  {| ip := Some "a"%string; path := "/"; method := "OPTIONS" |}.

(** The ban of the address "a" in [wFar]. *)
Definition banFar : BanRecord :=
  {| b_timestamp := 5001; b_violations := 2; b_expiresAt := 86405001 |}.

(** At most two connections per address, a thousand in all. *)
Definition wsCfg2 : WsConfig :=
  {| maxConnections := 1000; rl_enabled := true; maxConnectionsPerIP := 2;
     rl_windowMs := 60000; maxMessages := 100; auth_enabled := false |}.

(** ** [getRequestInfo]

    The request is read through its properties: [req k] is the value of
    [req[k]], of a type [V] of JavaScript values. *)

(** The properties of the [info] object, in the order of the literal. *)
Definition infoKeys : list string :=
  ["method"; "subdomains"; "hostname"; "ip"; "originalUrl"; "params"; "path";
   "protocol"; "query"; "secure"; "xhr"; "headers"; "baseUrl"]%string.

(** [getRequestInfo(req, options)]; [include] is [options.include], an array
    of names or undefined.  The result is an object, given by its entries in
    order. *)
Definition getRequestInfo {V} (req : string → V) (include : option (list string))
    : JsMap.t V :=
  let info := (λ k, (k, req k)) <$> infoKeys in
  match include with
  | Some names => filter (λ e, e.1 ∈ names) info
  | None => info
  end.

(** ** More vocabulary *)

(** A window record counts its timestamps and has at least one. *)
Definition windowOk (d : WindowRecord) : Prop :=
  w_count d = Z.of_nat (length (w_requests d)) ∧ 1 ≤ w_count d.

Definition windowsOk (w : World) : Prop :=
  Forall (λ e, windowOk e.2) (requests w).

(** The record [isRateLimited] starts from when the key has none. *)
Definition freshRecord (t : Z) : WindowRecord :=
  {| w_count := 0; w_firstRequest := t; w_requests := [] |}.

(** The messages of a list, by their lengths, received on one connection one
    after the other; the results of [handleMessage] are listed in order. *)
Fixpoint messagesAll (cfg : WsConfig) (connectionId : string) (lens : list Z)
    : WsM (list bool) :=
  match lens with
  | [] => ret []
  | len :: rest =>
      let* ok := handleMessage cfg connectionId len in
      let* oks := messagesAll cfg connectionId rest in
      ret (ok :: oks)
  end.

(** The states of the WebSocket support while it serves: the listeners and
    the limiter timers run one after the other; [generateConnectionId] gives a
    connection an id that no live connection has.  The shutdown by [close()]
    is not among the steps. *)
Inductive wsReachable `{Host} (cfg : WsConfig) : WsWorld → Prop :=
  | ws_new : wsReachable cfg wsEmpty
  | ws_onConnection id ip authOk w :
      wsReachable cfg w → connections w !! id = None →
      wsReachable cfg (onConnection cfg id ip authOk w).2
  | ws_onMessage id len w :
      wsReachable cfg w → wsReachable cfg (onMessage cfg id len w).2
  | ws_handleClose id w :
      wsReachable cfg w → wsReachable cfg (handleClose id w).2
  | ws_limiterTimeout ip w :
      wsReachable cfg w → wsReachable cfg (limiterTimeout ip w).2.

(** A fixed window of one second; a record first seen at 1500, a reading of
    2300. *)
Definition cfgFixed : Config :=
  constructor {|
    r_windowMs := Some 1000; r_maxRequests := Some 5;
    r_windowType := Some "fixed"%string;
    r_statusCode := None; r_message := None; r_headers := None;
    r_skipSuccessfulRequests := Some true; r_skipFailedRequests := None;
    r_skipOptions := None; r_routeLimits := None; r_methodLimits := None;
    r_whitelist := Some ["w"%string]; r_blacklist := Some ["w"; "b"]%string;
    r_autoBan_enabled := None; r_autoBan_maxViolations := None;
    r_autoBan_banDurationMs := None; r_autoBan_banMessage := None;
    r_cleanupInterval := None; r_maxStoreSize := None;
    r_keyGenerator := None; r_skip := None; r_handler := false |}.

Definition wFixed : World :=
  {| requests := [("a"%string, {| w_count := 2; w_firstRequest := 1500;
                                  w_requests := [1500; 1700] |})];
     violations := ∅; bans := ∅; reads := 0 |}.

(** The world of [wFar] before its fourth request. *)
Definition wFar3 : World :=
  (serve (H := hFar) cfgBan2 [reqA; reqA; reqA] emptyWorld).2.

(** One connection "c1" from 10.0.0.1; then two messages on it; or then the
    timer of the address's limiter. *)
Definition hWs : Host := hostOf [1000].

Definition wsOne : WsWorld :=
  (onConnection (host := hWs) wsCfg2 "c1" "10.0.0.1" true wsEmpty).2.

Definition connOne : Connection :=
  {| c_ip := "10.0.0.1"; c_connectTime := 1000; c_lastPing := 1000;
     c_messageCount := 0; c_bytesReceived := 0 |}.

Definition wsTalked : WsWorld :=
  ((onMessage wsCfg2 "c1" 10 ;; onMessage wsCfg2 "c1" 10) wsOne).2.

Definition wsQuiet : WsWorld := (limiterTimeout "10.0.0.1" wsOne).2.

(** [cfgOverlap] with a whitelist of one entry, which contains ':'. *)
Definition cfgListed : Config := withLists cfgOverlap ["a:/api"%string] [].

(** * Properties *)

(** ** The insertion-ordered map *)

Lemma get_set_eq {V} (k : string) (v : V) (m : JsMap.t V) :
  JsMap.get k (JsMap.set k v m) = Some v.
Proof.
  induction m as [|[k' v'] m IH]; simpl.
  - by rewrite decide_True.
  - destruct (decide (k' = k)) as [->|Hne]; simpl.
    + by rewrite decide_True.
    + by rewrite decide_False.
Qed.

Lemma get_set_ne {V} (k k' : string) (v : V) (m : JsMap.t V) :
  k ≠ k' → JsMap.get k' (JsMap.set k v m) = JsMap.get k' m.
Proof.
  intros Hne. induction m as [|[k0 v0] m IH]; simpl.
  - by rewrite decide_False.
  - destruct (decide (k0 = k)) as [->|Hne0]; simpl.
    + by rewrite !decide_False.
    + by rewrite IH.
Qed.

Lemma get_Some_elem_of {V} (k : string) (v : V) (m : JsMap.t V) :
  JsMap.get k m = Some v → (k, v) ∈ m.
Proof.
  induction m as [|[k' v'] m IH]; simpl; [done|].
  destruct (decide (k' = k)) as [->|Hne].
  - intros [= ->]. left.
  - intros Hg. right. by apply IH.
Qed.

Lemma get_None_not_key {V} (k : string) (m : JsMap.t V) :
  JsMap.get k m = None ↔ k ∉ JsMap.keys m.
Proof.
  unfold JsMap.keys. induction m as [|[k' v'] m IH]; simpl.
  - split; [intros _; apply not_elem_of_nil|done].
  - rewrite not_elem_of_cons. destruct (decide (k' = k)) as [->|Hne].
    + split; [done|]. intros [? _]; done.
    + rewrite IH. split; [by intros ?; split|by intros [_ ?]].
Qed.

Lemma elem_of_get_wf {V} (k : string) (v : V) (m : JsMap.t V) :
  JsMap.wf m → (k, v) ∈ m → JsMap.get k m = Some v.
Proof.
  unfold JsMap.wf, JsMap.keys. induction m as [|[k' v'] m IH]; simpl.
  - intros _ Hin. by apply elem_of_nil in Hin.
  - intros Hnd Hin. apply NoDup_cons in Hnd as [Hk' Hnd].
    apply elem_of_cons in Hin as [[= -> ->]|Hin].
    + by rewrite decide_True.
    + destruct (decide (k' = k)) as [->|Hne]; [|by apply IH].
      exfalso. apply Hk'. apply list_elem_of_fmap. by exists (k, v).
Qed.

(** ** Lists: filtering, the janitor's sort *)

Lemma filter_all {A} (P : A → Prop) `{!∀ x, Decision (P x)} (l : list A) :
  (∀ x, x ∈ l → P x) → filter P l = l.
Proof.
  induction l as [|x l IH]; intros HP; [done|].
  rewrite filter_cons_True by (apply HP; left).
  f_equal. apply IH. intros y Hy. apply HP. by right.
Qed.

Lemma filter_none {A} (P : A → Prop) `{!∀ x, Decision (P x)} (l : list A) :
  (∀ x, x ∈ l → ¬ P x) → filter P l = [].
Proof.
  induction l as [|x l IH]; intros HP; [done|].
  rewrite filter_cons_False by (apply HP; left).
  apply IH. intros y Hy. apply HP. by right.
Qed.

Lemma insertByFirstRequest_perm e l : insertByFirstRequest e l ≡ₚ e :: l.
Proof.
  induction l as [|e' l IH]; simpl; [done|].
  destruct (decide _); [done|].
  rewrite IH. apply perm_swap.
Qed.

Lemma sortByFirstRequest_perm l : sortByFirstRequest l ≡ₚ l.
Proof.
  induction l as [|e l IH]; simpl; [done|].
  rewrite insertByFirstRequest_perm. by rewrite IH.
Qed.

Lemma insertByFirstRequest_sorted e l :
  StronglySorted olderEq l → StronglySorted olderEq (insertByFirstRequest e l).
Proof.
  induction l as [|e' l IH]; simpl; intros Hs.
  - repeat constructor.
  - apply StronglySorted_cons in Hs as [Hall Hs].
    destruct (decide _) as [Hle|Hgt].
    + apply StronglySorted_cons. split.
      * constructor; [done|].
        eapply Forall_impl; [exact Hall|]. unfold olderEq in *. intros; lia.
      * by apply StronglySorted_cons.
    + apply StronglySorted_cons. split; [|by apply IH].
      rewrite insertByFirstRequest_perm. constructor; [|done].
      unfold olderEq. lia.
Qed.

Lemma sortByFirstRequest_sorted l : StronglySorted olderEq (sortByFirstRequest l).
Proof.
  induction l as [|e l IH]; simpl; [constructor|].
  by apply insertByFirstRequest_sorted.
Qed.

Lemma foldl_delete {V} (ks : list string) (m : JsMap.t V) :
  foldl (λ m k, JsMap.delete k m) m ks = filter (λ e, e.1 ∉ ks) m.
Proof.
  revert m. induction ks as [|k ks IH]; intros m; cbn [foldl].
  - symmetry. apply filter_all. intros x _. apply not_elem_of_nil.
  - rewrite IH. unfold JsMap.delete. rewrite list_filter_filter.
    apply list_filter_iff. intros x. rewrite not_elem_of_cons. tauto.
Qed.

(** Deleting the keys of a prefix of a permutation of a well-formed map
    leaves the rest of the permutation. *)
Lemma delete_prefix_perm {V} (m sorted : JsMap.t V) (n : nat) :
  JsMap.wf m → sorted ≡ₚ m →
  filter (λ e, e.1 ∉ (take n sorted).*1) m ≡ₚ drop n sorted.
Proof.
  intros Hwf Hperm. rewrite <- Hperm.
  assert (NoDup ((take n sorted).*1 ++ (drop n sorted).*1)) as Hnd.
  { rewrite <- fmap_app, take_drop. unfold JsMap.wf, JsMap.keys in Hwf.
    by rewrite Hperm. }
  apply NoDup_app in Hnd as (_ & Hdisj & _).
  set (ks := (take n sorted).*1) in *.
  transitivity (filter (λ e, e.1 ∉ ks) (take n sorted ++ drop n sorted));
    [by rewrite take_drop|].
  rewrite filter_app, filter_none, filter_all; [done| |].
  - intros x Hx Hin. apply (Hdisj _ Hin). by apply list_elem_of_fmap_2.
  - intros x Hx Hnot. apply Hnot. by apply list_elem_of_fmap_2.
Qed.

Lemma elem_of_keys_set {V} (x k : string) (v : V) (m : JsMap.t V) :
  x ∈ JsMap.keys (JsMap.set k v m) ↔ x = k ∨ x ∈ JsMap.keys m.
Proof.
  unfold JsMap.keys. induction m as [|[k' v'] m IH]; simpl.
  - rewrite list_elem_of_singleton, elem_of_nil. tauto.
  - destruct (decide (k' = k)) as [->|Hne]; simpl;
      rewrite !elem_of_cons; [tauto|]. rewrite IH. tauto.
Qed.

Lemma set_wf {V} (k : string) (v : V) (m : JsMap.t V) :
  JsMap.wf m → JsMap.wf (JsMap.set k v m).
Proof.
  unfold JsMap.wf. induction m as [|[k' v'] m IH]; simpl.
  - intros _. apply NoDup_singleton.
  - unfold JsMap.keys in *. simpl. intros [Hk' Hnd]%NoDup_cons.
    destruct (decide (k' = k)) as [->|Hne]; simpl.
    + by apply NoDup_cons.
    + apply NoDup_cons. split; [|by apply IH].
      intros [->|Hin]%(elem_of_keys_set k' k v m); done.
Qed.

Lemma filter_wf {V} (P : string * V → Prop) `{!∀ e, Decision (P e)}
    (m : JsMap.t V) :
  JsMap.wf m → JsMap.wf (filter P m).
Proof.
  unfold JsMap.wf, JsMap.keys. intros Hnd.
  eapply sublist_NoDup; [exact Hnd|]. apply fmap_sublist, sublist_filter.
Qed.

(** ** Running the monad *)

Lemma preserves_ret {A} (I : World → Prop) (a : A) : preserves I (ret a).
Proof. by intros w. Qed.

Lemma preserves_bind {A B} (I : World → Prop) (c : M A) (k : A → M B) :
  preserves I c → (∀ a, preserves I (k a)) → preserves I (bind c k).
Proof.
  intros Hc Hk w Hw. unfold bind. specialize (Hc w Hw).
  destruct (c w) as [a w1]. by apply Hk.
Qed.

Lemma preserves_getState (I : World → Prop) : preserves I getState.
Proof. by intros w. Qed.

Lemma preserves_now `{Host} : preserves storesOk now.
Proof. by intros w. Qed.

Lemma preserves_set_bans f : preserves storesOk (set_bans f).
Proof. by intros w. Qed.

Lemma preserves_set_requests f :
  (∀ m, JsMap.wf m → JsMap.wf (f m)) → preserves storesOk (set_requests f).
Proof. intros Hf w [Hwf Hv]. split; [by apply Hf|done]. Qed.

Lemma preserves_set_violations f :
  (∀ m, map_Forall (λ _ r, violationOk r) m →
        map_Forall (λ _ r, violationOk r) (f m)) →
  preserves storesOk (set_violations f).
Proof. intros Hf w [Hwf Hv]. split; [done|by apply Hf]. Qed.

(** Splits a computation along its binds and branches; what is left are the
    calls and the store updates. *)
Ltac preserve_step :=
  match goal with
  | |- preserves _ (bind _ _) => apply preserves_bind; [|intros ?]
  | |- preserves _ (ret _) => apply preserves_ret
  | |- preserves _ getState => apply preserves_getState
  | |- preserves _ now => apply preserves_now
  | |- preserves _ (set_bans _) => apply preserves_set_bans
  | |- preserves _ (if ?b then _ else _) => destruct b
  | |- preserves _ (match ?o with Some _ => _ | None => _ end) => destruct o
  end.

Ltac run :=
  unfold bind, ret, getState, set_requests, set_violations, set_bans, now;
  simpl.

Section RateLimiterFacts.
Context `{host : Host}.
Variable cfg : Config.

Lemma banIP_requests key w : requests (banIP cfg key w).2 = requests w.
Proof. reflexivity. Qed.

Lemma banIP_violations key w : violations (banIP cfg key w).2 = violations w.
Proof. reflexivity. Qed.

Lemma handleViolation_requests key w :
  requests (handleViolation cfg key w).2 = requests w.
Proof.
  unfold handleViolation. run.
  by destruct (enabled (autoBan cfg) && _).
Qed.

Lemma isRateLimited_requests key req w :
  let t := Date_now (reads w) in
  let data := slideOrReset cfg t
                (default {| w_count := 0; w_firstRequest := t; w_requests := [] |}
                   (JsMap.get key (requests w))) in
  requests (isRateLimited cfg key req w).2 =
  JsMap.set key {| w_count := w_count data + 1;
                   w_firstRequest := w_firstRequest data;
                   w_requests := w_requests data ++ [t] |} (requests w).
Proof.
  unfold isRateLimited. run.
  destruct (decide (_ < _)); [|done].
  match goal with |- context [handleViolation cfg key ?w0] =>
    pose proof (handleViolation_requests key w0) as Hv;
    destruct (handleViolation cfg key w0) as [u w1] end.
  simpl in *. by rewrite Hv.
Qed.

(** C1. In sliding mode, after [isRateLimited(key, req)] has run at clock
    reading [t], the record stored for [key] has as timestamp sequence the
    previously recorded timestamps [time] with [t - time < windowMs], in their
    order, followed by [t], and as count the number of those survivors plus
    one; the records of the other keys are as before. *)
Theorem c1_sliding_window_count (key : string) (req : Req) (w : World) :
  windowType cfg = "sliding"%string →
  let t := Date_now (reads w) in
  let previous := default [] (w_requests <$> JsMap.get key (requests w)) in
  let surviving := filter (λ time, t - time < windowMs cfg) previous in
  let w' := (isRateLimited cfg key req w).2 in
  (∃ d, JsMap.get key (requests w') = Some d ∧
        w_count d = Z.of_nat (length surviving) + 1 ∧
        w_requests d = surviving ++ [t]) ∧
  (∀ k, k ≠ key → JsMap.get k (requests w') = JsMap.get k (requests w)).
Proof.
  intros Hsl t previous surviving w'. subst w'.
  rewrite isRateLimited_requests. split.
  - eexists. split; [apply get_set_eq|].
    unfold slideOrReset. rewrite decide_True by done. simpl.
    subst surviving previous t.
    by destruct (JsMap.get key (requests w)).
  - intros k Hk. by apply get_set_ne.
Qed.

Lemma isRateLimited_result key req w :
  let t := Date_now (reads w) in
  let data := slideOrReset cfg t
                (default {| w_count := 0; w_firstRequest := t; w_requests := [] |}
                   (JsMap.get key (requests w))) in
  (isRateLimited cfg key req w).1 =
  bool_decide (effectiveLimit cfg req < w_count data + 1).
Proof.
  unfold isRateLimited. run.
  destruct (decide (_ < _)) as [Hlt|Hge].
  - match goal with |- context [handleViolation cfg key ?w0] =>
      destruct (handleViolation cfg key w0) as [u w1] end.
    simpl. by rewrite bool_decide_eq_true_2.
  - simpl. by rewrite bool_decide_eq_false_2.
Qed.

Lemma routeLimitFrom_head (entries : list (string * Z)) (p : string) :
  routeLimitFrom cfg entries p =
  default (maxRequests cfg)
    (head (filter (λ e, RegExp_test e.1 p = true) entries).*2).
Proof.
  induction entries as [|[pattern limit] rest IH]; simpl; [done|].
  destruct (RegExp_test pattern p) eqn:Ht.
  - by rewrite filter_cons_True.
  - rewrite filter_cons_False; [done|]. simpl. by rewrite Ht.
Qed.

(** C2 (amended). The limit the admission check compares the count with is
    the smaller of two numbers: the limit of the FIRST pattern of
    [routeLimits], in entry order, that matches the path ([maxRequests] when
    no pattern matches), and the method's limit ([maxRequests] when the
    method has none, or has the limit 0).  [isRateLimited] answers true
    exactly when the count it stored exceeds that limit. *)
Theorem c2_first_matching_route_limit (key : string) (req : Req) (w : World) :
  effectiveLimit cfg req =
    Z.min (default (maxRequests cfg) (head (matchingLimits cfg (path req))))
          (js_or (methodLimits cfg !! method req) (maxRequests cfg)) ∧
  ∃ d, JsMap.get key (requests (isRateLimited cfg key req w).2) = Some d ∧
       (isRateLimited cfg key req w).1 =
       bool_decide (effectiveLimit cfg req < w_count d).
Proof.
  split.
  - unfold effectiveLimit, getRouteLimit, getMethodLimit, matchingLimits.
    by rewrite routeLimitFrom_head.
  - rewrite isRateLimited_requests, isRateLimited_result.
    eexists. split; [apply get_set_eq|done].
Qed.

(** *** The janitor *)

Lemma cleanupTick_requests w :
  let m := live cfg (Date_now (reads w)) (requests w) in
  requests (cleanupTick cfg w).2 =
  if decide (maxStoreSize cfg < JsMap.size m)
  then filter (λ e, e.1 ∉ entriesToDelete cfg m) m else m.
Proof.
  unfold cleanupTick. run. fold (live cfg (Date_now (reads w)) (requests w)).
  destruct (decide _); [|done]. simpl. apply foldl_delete.
Qed.

Lemma cleanupTick_bans w :
  bans (cleanupTick cfg w).2 =
  filter (λ e, ¬ (b_expiresAt e.2 < Date_now (reads w))) (bans w).
Proof. unfold cleanupTick. run. by destruct (decide _). Qed.

Lemma cleanupTick_violations w :
  violations (cleanupTick cfg w).2 =
  omap (pruneViolation cfg (Date_now (reads w))) (violations w).
Proof. unfold cleanupTick. run. by destruct (decide _). Qed.

Lemma live_wf t m : JsMap.wf m → JsMap.wf (live cfg t m).
Proof. apply filter_wf. Qed.

Lemma cleanupTick_under_capacity w :
  let m := live cfg (Date_now (reads w)) (requests w) in
  JsMap.size m ≤ maxStoreSize cfg → requests (cleanupTick cfg w).2 = m.
Proof.
  intros m Hle. rewrite cleanupTick_requests. fold m.
  by rewrite decide_False by lia.
Qed.

(** C3 (amended). When, after the idle cleanup, the request store holds more
    than [maxStoreSize] entries, one janitor sweep deletes exactly
    floor(maxStoreSize * 0.2) of them, whatever the excess: the store goes
    from [n] entries to [n - maxStoreSize div 5].  The entries deleted are the
    earliest by [firstRequest]: each of them was first seen no later than
    each entry that stays, and the entries that stay keep their order. *)
Theorem c3_sweep_evicts_fifth_of_capacity (w : World) :
  JsMap.wf (requests w) →
  0 ≤ maxStoreSize cfg →
  let m := live cfg (Date_now (reads w)) (requests w) in
  maxStoreSize cfg < JsMap.size m →
  let m' := requests (cleanupTick cfg w).2 in
  JsMap.size m' = JsMap.size m - maxStoreSize cfg `div` 5 ∧
  m' `sublist_of` m ∧
  (∀ e e', e ∈ m → e ∉ m' → e' ∈ m' → olderEq e e').
Proof.
  intros Hwf Hmax m Hsize m'. subst m'.
  rewrite cleanupTick_requests. fold m. rewrite decide_True by done.
  assert (0 ≤ maxStoreSize cfg `div` 5) as Hk by (apply Z.div_pos; lia).
  assert (maxStoreSize cfg `div` 5 ≤ maxStoreSize cfg) as Hk'
    by (apply Z.div_le_upper_bound; lia).
  set (n := Z.to_nat (maxStoreSize cfg `div` 5)).
  assert (entriesToDelete cfg m = (take n (sortByFirstRequest m)).*1) as ->.
  { unfold entriesToDelete, slice0. by rewrite decide_False by lia. }
  pose proof (delete_prefix_perm m (sortByFirstRequest m) n
                (live_wf _ _ Hwf) (sortByFirstRequest_perm m)) as Hperm.
  pose proof (sortByFirstRequest_perm m) as Hsort.
  split; [|split].
  - unfold JsMap.size in *. rewrite Hperm, length_drop, Hsort. lia.
  - apply sublist_filter.
  - intros e e' He Hne He'.
    rewrite Hperm in Hne, He'.
    rewrite <- Hsort, <- (take_drop n (sortByFirstRequest m)) in He.
    apply elem_of_app in He as [He|He]; [|done].
    eapply StronglySorted_app_1_elem_of; [|exact He|exact He'].
    rewrite take_drop. apply sortByFirstRequest_sorted.
Qed.

(** C4 (amended). A janitor sweep at clock reading [t] keeps every ban
    record with [t <= expiresAt].  It takes no account of violations when it
    deletes window records: the request store after the sweep is the same
    whatever the violation and ban stores hold, and the record of a key first
    seen more than [windowMs] before [t] is deleted, also when the key has a
    violation record. *)
Theorem c4_sweep_keeps_bans_ignores_violations (w : World) :
  let t := Date_now (reads w) in
  let w' := (cleanupTick cfg w).2 in
  (∀ key b, bans w !! key = Some b → t ≤ b_expiresAt b →
            bans w' !! key = Some b) ∧
  (∀ v b, requests (cleanupTick cfg (withStores w v b)).2 = requests w') ∧
  (∀ key d, JsMap.wf (requests w) → JsMap.get key (requests w) = Some d →
            windowMs cfg < t - w_firstRequest d →
            JsMap.get key (requests w') = None).
Proof.
  intros t w'. subst w'. split; [|split].
  - intros key b Hb Ht. rewrite cleanupTick_bans.
    apply map_lookup_filter_Some. split; [done|]. simpl. fold t. lia.
  - intros v b. by rewrite !cleanupTick_requests.
  - intros key d Hwf Hget Hidle. apply get_None_not_key.
    intros Hin. apply list_elem_of_fmap in Hin as ([k d'] & -> & Hin).
    assert ((k, d') ∈ live cfg t (requests w)) as Hlive.
    { rewrite cleanupTick_requests in Hin. fold t in Hin.
      destruct (decide _); [|done].
      by apply list_elem_of_filter in Hin as [_ ?]. }
    apply list_elem_of_filter in Hlive as [Hyoung Hold]. simpl in *.
    apply (elem_of_get_wf _ _ _ Hwf) in Hold.
    rewrite Hget in Hold. injection Hold as ->. done.
Qed.

(** *** Violations *)

Lemma handleViolation_violations key w :
  let v := default {| v_count := 0; v_timestamps := [] |} (violations w !! key) in
  violations (handleViolation cfg key w).2 =
  <[key := {| v_count := v_count v + 1;
              v_timestamps := v_timestamps v ++ [Date_now (reads w)] |}]>
    (violations w).
Proof.
  unfold handleViolation. run.
  by destruct (enabled (autoBan cfg) && _).
Qed.

Lemma handleViolation_keeps_ok key w :
  map_Forall (λ _ r, violationOk r) (violations w) →
  map_Forall (λ _ r, violationOk r) (violations (handleViolation cfg key w).2).
Proof.
  intros Hinv. rewrite handleViolation_violations.
  apply map_Forall_insert_2; [|done].
  unfold violationOk. simpl. rewrite length_app. simpl.
  destruct (violations w !! key) as [r|] eqn:E; simpl; [|done].
  specialize (Hinv _ _ E). unfold violationOk in Hinv. lia.
Qed.

Lemma pruneViolation_ok t (m : gmap string ViolationRecord) :
  map_Forall (λ _ r, violationOk r) (omap (pruneViolation cfg t) m).
Proof.
  intros k r. rewrite lookup_omap.
  destruct (m !! k) as [r0|]; [|done]. simpl.
  unfold pruneViolation. destruct (decide _); [done|]. by intros [= <-].
Qed.

(** *** The invariant of the stores *)

Lemma banIP_preserves key : preserves storesOk (banIP cfg key).
Proof. unfold banIP. repeat preserve_step. Qed.

Lemma handleViolation_preserves key : preserves storesOk (handleViolation cfg key).
Proof.
  intros w [Hwf Hv]. split.
  - by rewrite handleViolation_requests.
  - by apply handleViolation_keeps_ok.
Qed.

Lemma isRateLimited_preserves key req :
  preserves storesOk (isRateLimited cfg key req).
Proof.
  unfold isRateLimited. repeat preserve_step.
  - apply preserves_set_requests. intros m. apply set_wf.
  - apply handleViolation_preserves.
Qed.

Lemma isIPBanned_preserves key : preserves storesOk (isIPBanned key).
Proof. unfold isIPBanned. repeat preserve_step. Qed.

Lemma getRateLimitInfo_preserves key :
  preserves storesOk (getRateLimitInfo cfg key).
Proof.
  unfold getRateLimitInfo. repeat preserve_step.
  apply isIPBanned_preserves.
Qed.

Lemma handleRateLimit_preserves key isBanned :
  preserves storesOk (handleRateLimit cfg key isBanned).
Proof.
  unfold handleRateLimit. repeat preserve_step.
  apply getRateLimitInfo_preserves.
Qed.

Lemma middleware_preserves lg req : preserves storesOk (middleware cfg lg req).
Proof.
  unfold middleware. repeat preserve_step;
    auto using handleRateLimit_preserves, isIPBanned_preserves,
      isRateLimited_preserves, getRateLimitInfo_preserves.
Qed.

Lemma cleanupTick_preserves : preserves storesOk (cleanupTick cfg).
Proof.
  intros w [Hwf Hv]. split.
  - rewrite cleanupTick_requests. destruct (decide _).
    + by apply filter_wf, live_wf.
    + by apply live_wf.
  - rewrite cleanupTick_violations. apply pruneViolation_ok.
Qed.

Lemma onFinish_preserves key resStatus :
  preserves storesOk (onFinish cfg key resStatus).
Proof.
  unfold onFinish. repeat preserve_step.
  apply preserves_set_requests. intros m Hm.
  destruct (JsMap.get key m); [by apply set_wf|done].
Qed.

Lemma reset_preserves key : preserves storesOk (reset key).
Proof.
  unfold reset. repeat preserve_step;
    try (apply preserves_set_requests; intros m Hm;
         first [apply NoDup_nil_2 | by apply filter_wf]);
    apply preserves_set_violations; intros m Hm;
    first [apply map_Forall_empty | by apply map_Forall_delete].
Qed.

(** Every world a limiter can be in satisfies the invariant. *)
Lemma reachable_storesOk w : reachable cfg w → storesOk w.
Proof.
  induction 1.
  - split; [apply NoDup_nil_2|apply map_Forall_empty].
  - by apply middleware_preserves.
  - by apply cleanupTick_preserves.
  - by apply onFinish_preserves.
  - by apply isRateLimited_preserves.
  - by apply handleViolation_preserves.
  - by apply banIP_preserves.
  - by apply isIPBanned_preserves.
  - by apply getRateLimitInfo_preserves.
  - by apply reset_preserves.
Qed.

Lemma serve_reachable reqs w :
  reachable cfg w → reachable cfg (serve cfg reqs w).2.
Proof.
  revert w. induction reqs as [|r reqs IH]; intros w Hw; [done|].
  cbn [serve]. unfold bind.
  pose proof (reach_middleware cfg false r w Hw) as Hr.
  destruct (middleware cfg false r w) as [o w1].
  specialize (IH w1 Hr). by destruct (serve cfg reqs w1) as [os w2].
Qed.

(** C5 (amended). [handleViolation(key)] appends the clock reading to the
    key's timestamps and adds one to its count; it prunes nothing, so old
    timestamps stay and the count compared with the ban threshold is the
    unpruned one.  [count == len(timestamps)] is kept by it, and holds of
    every violation record in every world a limiter can be in.  Timestamps are
    pruned by the janitor only: after a sweep at clock reading [t] every
    violation record left has [count == len(timestamps)] and only timestamps
    [time] with [t - time < 2 * windowMs]. *)
Theorem c5_violations_pruned_by_sweep_only (key : string) (w : World) :
  let v := default {| v_count := 0; v_timestamps := [] |} (violations w !! key) in
  let w1 := (handleViolation cfg key w).2 in
  let w2 := (cleanupTick cfg w).2 in
  violations w1 !! key =
    Some {| v_count := v_count v + 1;
            v_timestamps := v_timestamps v ++ [Date_now (reads w)] |} ∧
  ((∀ k r, violations w !! k = Some r → violationOk r) →
   ∀ k r, violations w1 !! k = Some r → violationOk r) ∧
  (reachable cfg w → ∀ k r, violations w !! k = Some r → violationOk r) ∧
  (∀ k r, violations w2 !! k = Some r →
     violationOk r ∧
     Forall (λ time, Date_now (reads w) - time < 2 * windowMs cfg)
            (v_timestamps r)).
Proof.
  intros v w1 w2. subst w1 w2. split; [|split; [|split]].
  - rewrite handleViolation_violations. apply lookup_insert_eq.
  - intros Hinv. by apply handleViolation_keeps_ok.
  - intros Hr. by apply reachable_storesOk.
  - intros k r. rewrite cleanupTick_violations, lookup_omap.
    destruct (violations w !! k) as [r0|]; [|done]. simpl.
    unfold pruneViolation. destruct (decide _); [done|].
    intros [= <-]. split; [done|]. simpl.
    apply Forall_forall. intros x Hx.
    apply list_elem_of_filter in Hx as [Hx _]. lia.
Qed.

(** *** Bans *)

Lemma handleViolation_bans key w :
  let v := default {| v_count := 0; v_timestamps := [] |} (violations w !! key) in
  bans (handleViolation cfg key w).2 =
  if enabled (autoBan cfg) && bool_decide (maxViolations (autoBan cfg) ≤ v_count v + 1)
  then <[key := {| b_timestamp := Date_now (S (reads w));
                   b_violations := js_or (Some (v_count v + 1)) 0;
                   b_expiresAt := Date_now (S (S (reads w)))
                                  + banDurationMs (autoBan cfg) |}]> (bans w)
  else bans w.
Proof.
  unfold handleViolation. run.
  destruct (enabled (autoBan cfg) && _); [|done].
  unfold banIP. run. by rewrite lookup_insert_eq.
Qed.

Lemma isIPBanned_live key w b :
  bans w !! key = Some b → Date_now (reads w) ≤ b_expiresAt b →
  isIPBanned key w =
  (true, {| requests := requests w; violations := violations w;
            bans := bans w; reads := S (reads w) |}).
Proof.
  intros Hb Ht. unfold isIPBanned. run. rewrite Hb.
  by rewrite decide_False by lia.
Qed.

Lemma isIPBanned_expired key w b :
  bans w !! key = Some b → b_expiresAt b < Date_now (reads w) →
  isIPBanned key w =
  (false, {| requests := requests w; violations := violations w;
             bans := delete key (bans w); reads := S (reads w) |}).
Proof.
  intros Hb Ht. unfold isIPBanned. run. rewrite Hb.
  by rewrite decide_True by lia.
Qed.

(** C6 (amended). When [autoBan.enabled] is set and the violation that
    [handleViolation] records brings the key's count to [maxViolations] or
    more, a ban is stored whose [expiresAt] is the clock reading taken for it
    plus [banDurationMs]; when [autoBan.enabled] is not set, no ban is ever
    created, and none is created below the threshold.  For a key with a
    stored ban, [isIPBanned] at clock reading [t]
    answers true and changes no ban when [t <= expiresAt], and answers false
    and deletes the ban record when [t > expiresAt]. *)
Theorem c6_ban_created_when_enabled (key : string) (w : World) :
  let v := default {| v_count := 0; v_timestamps := [] |} (violations w !! key) in
  let w1 := (handleViolation cfg key w).2 in
  let t := Date_now (reads w) in
  (enabled (autoBan cfg) = true →
   maxViolations (autoBan cfg) ≤ v_count v + 1 →
   ∃ b, bans w1 !! key = Some b ∧
        b_expiresAt b = Date_now (S (S (reads w))) + banDurationMs (autoBan cfg)) ∧
  (enabled (autoBan cfg) = false → bans w1 = bans w) ∧
  (v_count v + 1 < maxViolations (autoBan cfg) → bans w1 = bans w) ∧
  (∀ b, bans w !! key = Some b →
     (t ≤ b_expiresAt b →
      (isIPBanned key w).1 = true ∧ bans (isIPBanned key w).2 = bans w) ∧
     (b_expiresAt b < t →
      (isIPBanned key w).1 = false ∧
      bans (isIPBanned key w).2 = delete key (bans w))).
Proof.
  intros v w1 t. subst w1. rewrite handleViolation_bans. fold v.
  split; [|split; [|split]].
  - intros -> Hreach. rewrite bool_decide_eq_true_2 by done. simpl.
    eexists. split; [apply lookup_insert_eq|done].
  - by intros ->.
  - intros Hbelow. rewrite bool_decide_eq_false_2 by lia.
    by rewrite andb_false_r.
  - intros b Hb. split; intros Ht.
    + by rewrite (isIPBanned_live _ _ _ Hb Ht).
    + by rewrite (isIPBanned_expired _ _ _ Hb Ht).
Qed.

(** *** The middleware *)

Lemma isIPBanned_frame key w :
  requests (isIPBanned key w).2 = requests w ∧
  violations (isIPBanned key w).2 = violations w.
Proof.
  unfold isIPBanned. run. destruct (bans w !! key); [|done].
  by destruct (decide _).
Qed.

Lemma getRateLimitInfo_frame key w :
  requests (getRateLimitInfo cfg key w).2 = requests w ∧
  violations (getRateLimitInfo cfg key w).2 = violations w.
Proof.
  unfold getRateLimitInfo. run.
  pose proof (isIPBanned_frame key w) as Hf.
  destruct (isIPBanned key w) as [b w1]. simpl in Hf.
  by destruct (JsMap.get key (requests w)).
Qed.

Lemma handleRateLimit_frame key isBanned w :
  requests (handleRateLimit cfg key isBanned w).2 = requests w ∧
  violations (handleRateLimit cfg key isBanned w).2 = violations w.
Proof.
  unfold handleRateLimit. destruct (handler cfg); [done|]. run.
  destruct (headers cfg); [|done]. run.
  pose proof (getRateLimitInfo_frame key w) as Hf.
  by destruct (getRateLimitInfo cfg key w) as [info w1].
Qed.

Lemma handleRateLimit_outcome key isBanned w :
  ∃ r, (handleRateLimit cfg key isBanned w).1 = Denied isBanned r.
Proof.
  unfold handleRateLimit. destruct (handler cfg); [by eexists|]. run.
  destruct (headers cfg); [|by eexists]. run.
  destruct (getRateLimitInfo cfg key w) as [info w1]. by eexists.
Qed.

Lemma isIPBanned_none key w :
  bans w !! key = None → isIPBanned key w = (false, w).
Proof. intros Hb. unfold isIPBanned. run. by rewrite Hb. Qed.

(** A request that reaches the window counter leaves the request store as
    [isRateLimited] left it: what follows the count writes no window record. *)
Lemma middleware_counts_once lg req w :
  skip cfg req = false →
  skipOptions cfg && bool_decide (method req = "OPTIONS"%string) = false →
  generateKey cfg req ∉ whitelist cfg →
  generateKey cfg req ∉ blacklist cfg →
  bans w !! generateKey cfg req = None →
  requests (middleware cfg lg req w).2 =
  requests (isRateLimited cfg (generateKey cfg req) req w).2.
Proof.
  intros Hskip Hopt Hwl Hbl Hban. unfold middleware.
  rewrite Hskip, Hopt, !bool_decide_eq_false_2 by done.
  unfold bind. rewrite (isIPBanned_none _ _ Hban).
  destruct (isRateLimited cfg (generateKey cfg req) req w) as [limited w1].
  destruct limited; [|done]. simpl. destruct lg; simpl.
  - pose proof (getRateLimitInfo_frame (generateKey cfg req) w1) as [Hf _].
    destruct (getRateLimitInfo cfg (generateKey cfg req) w1) as [info w2].
    simpl in *. rewrite <- Hf. apply handleRateLimit_frame.
  - apply handleRateLimit_frame.
Qed.

(** C7 (amended). Let the key of a request have a stored ban that has not
    expired at the clock reading of the decision.  Then processing the request
    leaves the request store and the violation store as they were; and when
    the request is not skipped ([skip], [skipOptions]) and its key is on
    neither the whitelist nor the blacklist, the outcome is the ban denial. *)
Theorem c7_banned_request_mutates_no_counter
    (lg : bool) (req : Req) (w : World) (b : BanRecord) :
  bans w !! generateKey cfg req = Some b →
  Date_now (reads w) ≤ b_expiresAt b →
  let w' := (middleware cfg lg req w).2 in
  (requests w' = requests w ∧ violations w' = violations w) ∧
  (skip cfg req = false →
   skipOptions cfg && bool_decide (method req = "OPTIONS"%string) = false →
   generateKey cfg req ∉ whitelist cfg →
   generateKey cfg req ∉ blacklist cfg →
   ∃ r, (middleware cfg lg req w).1 = Denied true r).
Proof.
  intros Hb Ht w'. subst w'. unfold middleware. split.
  - destruct (skip cfg req); [done|].
    destruct (skipOptions cfg && _); [done|].
    destruct (bool_decide (_ ∈ whitelist cfg)); [done|].
    destruct (bool_decide (_ ∈ blacklist cfg)); [apply handleRateLimit_frame|].
    unfold bind. rewrite (isIPBanned_live _ _ _ Hb Ht).
    exact (handleRateLimit_frame _ true
             {| requests := requests w; violations := violations w;
                bans := bans w; reads := S (reads w) |}).
  - intros -> -> Hwl Hbl.
    rewrite !bool_decide_eq_false_2 by done.
    unfold bind. rewrite (isIPBanned_live _ _ _ Hb Ht).
    apply handleRateLimit_outcome.
Qed.

(** *** Keys *)

Lemma append_nil_l (s : string) : ("" +:+ s)%string = s.
Proof. reflexivity. Qed.

Lemma append_cons (c : Ascii.ascii) (s t : string) :
  (String c s +:+ t)%string = String c (s +:+ t)%string.
Proof. reflexivity. Qed.

Lemma split_colon (s1 s2 t1 t2 : string) :
  colonFree s1 = true → colonFree s2 = true →
  (s1 +:+ ":" +:+ t1 = s2 +:+ ":" +:+ t2)%string →
  s1 = s2 ∧ t1 = t2.
Proof.
  revert s2. induction s1 as [|c s1 IH]; intros [|c2 s2];
    rewrite ?append_cons, ?append_nil_l; cbn [colonFree].
  - intros _ _ [= ->]. done.
  - intros _ Hc [= <- _]. done.
  - intros Hc _ [= -> _]. done.
  - intros [_ H1]%andb_prop [_ H2]%andb_prop [= -> Heq].
    destruct (IH _ H1 H2 Heq) as [-> ->]. done.
Qed.

Lemma append_colon_neq (s t : string) : (s +:+ ":" +:+ t)%string ≠ s.
Proof.
  induction s as [|c s IH]; rewrite ?append_cons, ?append_nil_l.
  - done.
  - intros [= Heq]. by apply IH.
Qed.

Lemma colonFree_append_colon (s t : string) :
  colonFree (s +:+ ":" +:+ t)%string = false.
Proof.
  induction s as [|c s IH]; [reflexivity|].
  change (colonFree (String c (s +:+ ":" +:+ t)%string) = false).
  cbn [colonFree]. rewrite IH. apply andb_false_r.
Qed.

(** The key has the bare identity, the delimiter and a scope suffix as soon
    as a route or method limit is configured. *)
Lemma generateKey_scoped req :
  routeLimits cfg ≠ [] ∨ methodLimits cfg ≠ ∅ →
  ∃ suffix, generateKey cfg req =
            (js_str (keyGenerator cfg req) +:+ ":" +:+ suffix)%string.
Proof.
  intros Hsc. unfold generateKey.
  destruct (decide (routeLimits cfg = [])) as [Hr|Hr];
    destruct (decide (methodLimits cfg = ∅)) as [Hm|Hm]; simpl.
  - by destruct Hsc.
  - by eexists.
  - by eexists.
  - by eexists.
Qed.

(** C8 (amended). [generateKey] joins the identity, then the path when
    [routeLimits] is non-empty, then the method when [methodLimits] is
    non-empty, with ':'.  An unresolved identity contributes the empty string:
    without scopes the key is the empty string, and there is no fallback key.
    Two requests whose identities and paths are free of ':' have equal keys
    only when they agree on the identity and on each of path and method that
    is part of the key. *)
Theorem c8_keys_distinct_without_delimiter (r1 r2 : Req) :
  (keyGenerator cfg r1 = None → routeLimits cfg = [] → methodLimits cfg = ∅ →
   generateKey cfg r1 = ""%string) ∧
  (colonFree (js_str (keyGenerator cfg r1)) = true →
   colonFree (js_str (keyGenerator cfg r2)) = true →
   colonFree (path r1) = true → colonFree (path r2) = true →
   generateKey cfg r1 = generateKey cfg r2 →
   js_str (keyGenerator cfg r1) = js_str (keyGenerator cfg r2) ∧
   (routeLimits cfg ≠ [] → path r1 = path r2) ∧
   (methodLimits cfg ≠ ∅ → method r1 = method r2)).
Proof.
  unfold generateKey. split.
  - intros -> -> ->. done.
  - intros Hi1 Hi2 Hp1 Hp2.
    destruct (decide (routeLimits cfg = [])) as [Hr|Hr];
      destruct (decide (methodLimits cfg = ∅)) as [Hm|Hm]; simpl; intros Heq.
    + done.
    + apply split_colon in Heq as [-> ->]; done.
    + apply split_colon in Heq as [-> ->]; done.
    + apply split_colon in Heq as [-> Heq]; [|done..].
      apply split_colon in Heq as [-> ->]; done.
Qed.

(** The key, part by part: the identity, then the path when [routeLimits]
    is non-empty, then the method when [methodLimits] is non-empty. *)
Lemma generateKey_parts req :
  generateKey cfg req =
  if decide (routeLimits cfg = []) then
    if decide (methodLimits cfg = ∅) then js_str (keyGenerator cfg req)
    else (js_str (keyGenerator cfg req) +:+ ":" +:+ method req)%string
  else
    if decide (methodLimits cfg = ∅)
    then (js_str (keyGenerator cfg req) +:+ ":" +:+ path req)%string
    else (js_str (keyGenerator cfg req) +:+ ":" +:+ path req +:+ ":"
          +:+ method req)%string.
Proof.
  unfold generateKey.
  by destruct (decide (routeLimits cfg = [])), (decide (methodLimits cfg = ∅)).
Qed.

(** C10 (amended). When [routeLimits] or [methodLimits] is non-empty, the key
    the middleware looks up in the whitelist and the blacklist is the
    identity, ':' and the scope: the path under [routeLimits] alone, the
    method under [methodLimits] alone, the path, ':' and the method under
    both.  The lists act on a request through the membership of that key and
    nothing else: lists that do not hold the key act as empty lists, a
    whitelisted key is passed on with the world untouched, a key on the
    blacklist only is handed to [handleRateLimit].  The key differs from the
    bare identity of the request and from every entry without ':', so an
    entry that is the request's bare identity, or any entry without ':',
    never matches it; an entry with ':' is compared like any other string. *)
Theorem c10_lists_match_composite_key (lg : bool) (req : Req) (w : World) :
  routeLimits cfg ≠ [] ∨ methodLimits cfg ≠ ∅ →
  let ident := js_str (keyGenerator cfg req) in
  let key := generateKey cfg req in
  let scope :=
    if decide (routeLimits cfg = []) then method req
    else if decide (methodLimits cfg = ∅) then path req
    else (path req +:+ ":" +:+ method req)%string in
  key = (ident +:+ ":" +:+ scope)%string ∧
  key ≠ ident ∧
  (∀ e, colonFree e = true → key ≠ e) ∧
  (key ∈ whitelist cfg → middleware cfg lg req w = (Next, w)) ∧
  (skip cfg req = false →
   skipOptions cfg && bool_decide (method req = "OPTIONS"%string) = false →
   key ∉ whitelist cfg → key ∈ blacklist cfg →
   middleware cfg lg req w = handleRateLimit cfg key false w) ∧
  (∀ wl bl, key ∉ wl → key ∉ bl →
     middleware (withLists cfg wl bl) lg req w =
     middleware (withLists cfg [] []) lg req w) ∧
  (∀ wl bl, (∀ e, e ∈ wl → e = ident ∨ colonFree e = true) →
            (∀ e, e ∈ bl → e = ident ∨ colonFree e = true) →
     middleware (withLists cfg wl bl) lg req w =
     middleware (withLists cfg [] []) lg req w).
Proof.
  intros Hsc ident key scope. subst key.
  assert (generateKey cfg req = (ident +:+ ":" +:+ scope)%string) as Hkey.
  { rewrite generateKey_parts. subst scope ident.
    destruct (decide (routeLimits cfg = [])) as [Hr|Hr];
      destruct (decide (methodLimits cfg = ∅)) as [Hm|Hm]; try done.
    by destruct Hsc. }
  assert (generateKey cfg req ≠ ident) as Hne.
  { rewrite Hkey. apply append_colon_neq. }
  assert (∀ e, colonFree e = true → generateKey cfg req ≠ e) as Hfree.
  { intros e He Heq. rewrite <- Heq, Hkey, colonFree_append_colon in He. done. }
  assert (∀ wl bl, generateKey cfg req ∉ wl → generateKey cfg req ∉ bl →
            middleware (withLists cfg wl bl) lg req w =
            middleware (withLists cfg [] []) lg req w) as Hlists.
  { intros wl bl Hwl Hbl. unfold middleware. simpl.
    change (generateKey (withLists cfg wl bl) req) with (generateKey cfg req).
    change (generateKey (withLists cfg [] []) req) with (generateKey cfg req).
    rewrite !(bool_decide_eq_false_2 (_ ∈ wl)) by done.
    rewrite !(bool_decide_eq_false_2 (_ ∈ bl)) by done.
    reflexivity. }
  split; [done|]. split; [done|]. split; [done|]. split; [|split; [|split]].
  - intros Hin. unfold middleware.
    destruct (skip cfg req); [done|].
    destruct (skipOptions cfg && _); [done|].
    by rewrite bool_decide_eq_true_2.
  - intros Hskip Hopt Hwl Hbl. unfold middleware. rewrite Hskip, Hopt.
    rewrite bool_decide_eq_false_2 by done.
    by rewrite bool_decide_eq_true_2 by done.
  - exact Hlists.
  - intros wl bl Hwl Hbl. apply Hlists.
    + intros [Hi|Hc]%Hwl; [done|]. by apply (Hfree _ Hc).
    + intros [Hi|Hc]%Hbl; [done|]. by apply (Hfree _ Hc).
Qed.

End RateLimiterFacts.

(** ** The WebSocket admission path *)

Section WebSocketFacts.
Context `{host : Host}.
Variable cfg : WsConfig.

Lemma checkRateLimit_no_messages ip w :
  0 < maxConnectionsPerIP cfg → noMessagesYet ip w →
  (checkRateLimit cfg ip w).1 = false ∧
  noMessagesYet ip (checkRateLimit cfg ip w).2 ∧
  activeConnections (checkRateLimit cfg ip w).2 = activeConnections w.
Proof.
  intros Hpos Hno. unfold checkRateLimit, noMessagesYet in *.
  unfold bind, ret, getState. simpl.
  destruct (rateLimiters w !! ip) as [l|] eqn:Hl; simpl.
  - rewrite Hl. simpl. rewrite (Hno l eq_refl).
    split; [by rewrite bool_decide_eq_false_2 by lia|].
    split; [|done]. intros l' [= <-]. by apply Hno.
  - rewrite lookup_insert_eq. simpl.
    split; [by rewrite bool_decide_eq_false_2 by lia|].
    split; [|done]. by intros l' [= <-].
Qed.

Lemma onConnection_admits id ip w :
  0 < maxConnectionsPerIP cfg → noMessagesYet ip w →
  activeConnections w < maxConnections cfg →
  (onConnection cfg id ip true w).1 = Connected ∧
  noMessagesYet ip (onConnection cfg id ip true w).2 ∧
  activeConnections (onConnection cfg id ip true w).2 = activeConnections w + 1.
Proof.
  intros Hpos Hno Hroom.
  unfold onConnection, setupConnection, add_connectionStats, set_connections,
    ws_now, bind, ret, getState. simpl.
  rewrite decide_False by lia.
  destruct (rl_enabled cfg); simpl.
  - destruct (checkRateLimit_no_messages ip w Hpos Hno) as (Hres & Hno' & Hact).
    destruct (checkRateLimit cfg ip w) as [r w1]. simpl in *. subst r.
    rewrite andb_false_r. simpl. split; [done|]. split; [exact Hno'|lia].
  - rewrite andb_false_r. simpl. split; [done|]. split; [exact Hno|done].
Qed.

(** C9 (what the code does). As long as no message has been counted against
    an address, every connection attempt from it passes the connect-time
    check: [checkRateLimit] compares a count that connections never increase.
    Any number of attempts in a row, within the total connection cap, are all
    set up, whatever [maxConnectionsPerIP] is. *)
Theorem c9_connections_are_never_counted (ids : list string) (ip : string)
    (w : WsWorld) :
  0 < maxConnectionsPerIP cfg →
  noMessagesYet ip w →
  activeConnections w + Z.of_nat (length ids) ≤ maxConnections cfg →
  (connectAll cfg ids ip w).1 = replicate (length ids) Connected.
Proof.
  intros Hpos. revert w. induction ids as [|id ids IH]; intros w Hno Hroom.
  - done.
  - simpl in Hroom. cbn [connectAll length replicate].
    destruct (onConnection_admits id ip w Hpos Hno) as (Hres & Hno' & Hact);
      [lia|].
    unfold bind, ret.
    destruct (onConnection cfg id ip true w) as [r w1]. simpl in *. subst r.
    specialize (IH w1 Hno').
    destruct (connectAll cfg ids ip w1) as [rs w2]. simpl in *.
    f_equal. apply IH. lia.
Qed.

End WebSocketFacts.

(** ** Further properties of the rate limiter *)

Lemma get_delete_eq {V} (k : string) (m : JsMap.t V) :
  JsMap.get k (JsMap.delete k m) = None.
Proof.
  apply get_None_not_key. unfold JsMap.keys, JsMap.delete.
  intros ([k' v] & -> & Hin)%list_elem_of_fmap.
  by apply list_elem_of_filter in Hin as [Hne _].
Qed.

Lemma get_delete_ne {V} (k k' : string) (m : JsMap.t V) :
  k ≠ k' → JsMap.get k' (JsMap.delete k m) = JsMap.get k' m.
Proof.
  intros Hne. unfold JsMap.delete.
  induction m as [|[k0 v0] m IH]; [done|].
  rewrite filter_cons. simpl. destruct (decide (k0 ≠ k)) as [H0|H0]; simpl.
  - by rewrite IH.
  - apply dec_stable in H0 as ->. by rewrite decide_False.
Qed.

Lemma Forall_set {V} (P : string * V → Prop) (k : string) (v : V)
    (m : JsMap.t V) :
  Forall P m → P (k, v) → Forall P (JsMap.set k v m).
Proof.
  intros Hm Hv. induction m as [|[k' v'] m IH]; simpl.
  - by constructor.
  - apply Forall_cons in Hm as [Hk' Hm].
    destruct (decide (k' = k)); constructor; auto.
Qed.

Lemma Forall_kept {A} (P Q : A → Prop) `{!∀ x, Decision (Q x)} (l : list A) :
  Forall P l → Forall P (filter Q l).
Proof.
  rewrite !Forall_forall. intros Hl x [_ Hx]%list_elem_of_filter. by apply Hl.
Qed.

Lemma get_Forall {V} (P : string * V → Prop) (k : string) (v : V)
    (m : JsMap.t V) :
  Forall P m → JsMap.get k m = Some v → P (k, v).
Proof.
  intros Hm Hg. apply get_Some_elem_of in Hg.
  by apply (proj1 (Forall_forall _ _) Hm).
Qed.

Section RateLimiterMore.
Context `{host : Host}.
Variable cfg : Config.

(** What [isRateLimited] does, in one equation: the world [w1] has the
    request counted; a violation is handled in it when the count exceeds the
    limit. *)
Lemma isRateLimited_run key req w :
  let t := Date_now (reads w) in
  let data := slideOrReset cfg t (default (freshRecord t) (JsMap.get key (requests w))) in
  let data' := {| w_count := w_count data + 1;
                  w_firstRequest := w_firstRequest data;
                  w_requests := w_requests data ++ [t] |} in
  let w1 := {| requests := JsMap.set key data' (requests w);
               violations := violations w; bans := bans w;
               reads := S (reads w) |} in
  isRateLimited cfg key req w =
  if decide (effectiveLimit cfg req < w_count data')
  then (true, (handleViolation cfg key w1).2)
  else (false, w1).
Proof.
  unfold isRateLimited, freshRecord. run.
  destruct (decide _); [|done].
  match goal with |- context [handleViolation cfg key ?w0] =>
    by destruct (handleViolation cfg key w0) end.
Qed.

(** The first request of a key, in either window mode, stores a record with
    the count 1 and the clock reading as first request and only timestamp. *)
Lemma isRateLimited_first key req w :
  JsMap.get key (requests w) = None →
  JsMap.get key (requests (isRateLimited cfg key req w).2) =
  Some {| w_count := 1; w_firstRequest := Date_now (reads w);
          w_requests := [Date_now (reads w)] |}.
Proof.
  intros Hnone. rewrite isRateLimited_requests, get_set_eq, Hnone. simpl.
  unfold slideOrReset. destruct (decide (windowType cfg = _)); simpl; [done|].
  by destruct (decide _).
Qed.

(** X1. In fixed mode with a positive window, the buckets are the intervals
    [[n * windowMs, (n + 1) * windowMs)].  A request whose clock reading falls
    in a later bucket than the record's [firstRequest] restarts the record:
    count 1, first request and only timestamp the reading.  A request in the
    same bucket (or an earlier one) adds to the record as it is. *)
Theorem fixed_window_restarts_per_bucket (key : string) (req : Req) (w : World)
    (p : WindowRecord) :
  windowType cfg ≠ "sliding"%string →
  0 < windowMs cfg →
  JsMap.get key (requests w) = Some p →
  let t := Date_now (reads w) in
  let w' := (isRateLimited cfg key req w).2 in
  (w_firstRequest p `div` windowMs cfg < t `div` windowMs cfg →
   JsMap.get key (requests w') =
   Some {| w_count := 1; w_firstRequest := t; w_requests := [t] |}) ∧
  (t `div` windowMs cfg ≤ w_firstRequest p `div` windowMs cfg →
   JsMap.get key (requests w') =
   Some {| w_count := w_count p + 1; w_firstRequest := w_firstRequest p;
           w_requests := w_requests p ++ [t] |}).
Proof.
  intros Hfixed Hpos Hget t w'. subst w'.
  rewrite isRateLimited_requests, get_set_eq, Hget. simpl. fold t.
  unfold slideOrReset. rewrite decide_False by done.
  split; intros Hbucket.
  - rewrite decide_True; [done|].
    apply Z.nle_gt. intros Hle.
    pose proof (Z.div_le_lower_bound (w_firstRequest p) (windowMs cfg)
                  (t `div` windowMs cfg) Hpos). lia.
  - rewrite decide_False; [done|].
    intros Hlt.
    pose proof (Z.div_lt_upper_bound (w_firstRequest p) (windowMs cfg)
                  (t `div` windowMs cfg) Hpos). lia.
Qed.

(** X2. In sliding mode with a positive window, every timestamp of the record
    stored by [isRateLimited] at clock reading [t] is less than [windowMs]
    before [t], the reading itself included, and the count is their number. *)
Theorem sliding_record_within_window (key : string) (req : Req) (w : World) :
  windowType cfg = "sliding"%string →
  0 < windowMs cfg →
  let t := Date_now (reads w) in
  ∃ d, JsMap.get key (requests (isRateLimited cfg key req w).2) = Some d ∧
       Forall (λ time, t - time < windowMs cfg) (w_requests d) ∧
       w_count d = Z.of_nat (length (w_requests d)).
Proof.
  intros Hsl Hpos t. rewrite isRateLimited_requests, get_set_eq. fold t.
  eexists. split; [done|]. unfold slideOrReset. rewrite decide_True by done.
  simpl. split.
  - apply Forall_app. split.
    + apply Forall_forall. intros x Hx. by apply list_elem_of_filter in Hx as [? _].
    + repeat constructor. lia.
  - rewrite length_app. simpl. lia.
Qed.

(** X3. The compensating decrement.  When the response of a request finishes
    before the key's next request, with a status that the configuration
    excludes from counting, the key's record is what the window step alone
    made of it: the request no longer counts, and the other keys are as they
    were.  When the record is gone by then, the listener changes nothing. *)
Theorem finish_rolls_back_the_count (key : string) (req : Req) (resStatus : Z)
    (w : World) :
  (bool_decide (resStatus < 400) && skipSuccessfulRequests cfg)
  || (negb (bool_decide (resStatus < 400)) && skipFailedRequests cfg) = true →
  let t := Date_now (reads w) in
  let w1 := (isRateLimited cfg key req w).2 in
  JsMap.get key (requests (onFinish cfg key resStatus w1).2) =
    Some (slideOrReset cfg t (default (freshRecord t) (JsMap.get key (requests w)))) ∧
  (∀ k, k ≠ key →
     JsMap.get k (requests (onFinish cfg key resStatus w1).2) =
     JsMap.get k (requests w)) ∧
  (∀ w0, JsMap.get key (requests w0) = None →
     onFinish cfg key resStatus w0 = (tt, w0)).
Proof.
  intros Hroll t w1. unfold onFinish. rewrite Hroll. unfold set_requests.
  cbn [snd requests]. split; [|split].
  - subst w1. rewrite isRateLimited_requests, get_set_eq. cbn iota.
    rewrite get_set_eq. fold t. unfold freshRecord. simpl.
    rewrite removelast_last.
    destruct (slideOrReset cfg t _) as [c f rs]. simpl. do 2 f_equal. lia.
  - intros k Hk. subst w1. rewrite isRateLimited_requests, get_set_eq.
    cbn iota. by rewrite !get_set_ne.
  - intros w0 Hnone. cbn [snd requests]. rewrite Hnone. by destruct w0.
Qed.

(** X4. [reset(key)] with a non-empty key removes the key from the three
    stores and leaves the other keys alone; the key's next request is counted
    as a first one.  [reset('')], as [reset()], empties the three stores: the
    empty string is falsy. *)
Theorem reset_forgets_the_key (key : string) (req : Req) (w : World) :
  let w' := (reset (Some key) w).2 in
  (key ≠ ""%string →
   JsMap.get key (requests w') = None ∧ violations w' !! key = None ∧
   bans w' !! key = None ∧
   (∀ k, k ≠ key →
      JsMap.get k (requests w') = JsMap.get k (requests w) ∧
      violations w' !! k = violations w !! k ∧ bans w' !! k = bans w !! k) ∧
   JsMap.get key (requests (isRateLimited cfg key req w').2) =
   Some {| w_count := 1; w_firstRequest := Date_now (reads w);
           w_requests := [Date_now (reads w)] |}) ∧
  (key = ""%string →
   requests w' = [] ∧ violations w' = ∅ ∧ bans w' = ∅ ∧
   (reset None w).2 = w').
Proof.
  intros w'. subst w'. unfold reset. split.
  - intros Hne. rewrite decide_False by done. run.
    split; [apply get_delete_eq|]. split; [apply lookup_delete_eq|].
    split; [apply lookup_delete_eq|]. split.
    + intros k Hk. split; [by apply get_delete_ne|].
      by rewrite !lookup_delete_ne.
    + rewrite isRateLimited_first; [done|]. simpl. apply get_delete_eq.
  - intros ->. by rewrite decide_True.
Qed.

(** X5. The lists come first.  A request whose key is on the whitelist is
    passed on and the world is untouched, also when the key is blacklisted or
    banned.  A request that is not skipped and whose key is on the blacklist
    only is denied as a rate limit, never as a ban and never passed on; it is
    not counted and records no violation. *)
Theorem lists_decide_before_the_stores (lg : bool) (req : Req) (w : World) :
  let key := generateKey cfg req in
  (key ∈ whitelist cfg → middleware cfg lg req w = (Next, w)) ∧
  (skip cfg req = false →
   skipOptions cfg && bool_decide (method req = "OPTIONS"%string) = false →
   key ∉ whitelist cfg → key ∈ blacklist cfg →
   (∃ r, (middleware cfg lg req w).1 = Denied false r) ∧
   requests (middleware cfg lg req w).2 = requests w ∧
   violations (middleware cfg lg req w).2 = violations w).
Proof.
  intros key. subst key. unfold middleware. split.
  - intros Hin. destruct (skip cfg req); [done|].
    destruct (skipOptions cfg && _); [done|].
    by rewrite bool_decide_eq_true_2.
  - intros -> -> Hwl Hbl.
    rewrite bool_decide_eq_false_2, bool_decide_eq_true_2 by done.
    split; [apply handleRateLimit_outcome|apply handleRateLimit_frame].
Qed.

(** X6. [isRateLimited] records a violation exactly when it denies.  An
    admitted request leaves the violation and ban stores as they were; a
    denied one adds the next clock reading to the key's violation record and
    one to its count. *)
Theorem violation_recorded_iff_denied (key : string) (req : Req) (w : World) :
  let w' := (isRateLimited cfg key req w).2 in
  let v := default {| v_count := 0; v_timestamps := [] |} (violations w !! key) in
  ((isRateLimited cfg key req w).1 = false →
   violations w' = violations w ∧ bans w' = bans w) ∧
  ((isRateLimited cfg key req w).1 = true →
   violations w' =
   <[key := {| v_count := v_count v + 1;
               v_timestamps := v_timestamps v ++ [Date_now (S (reads w))] |}]>
     (violations w)).
Proof.
  intros w' v. subst w'. rewrite isRateLimited_run.
  destruct (decide _); simpl; split; try done.
  intros _. by rewrite handleViolation_violations.
Qed.

(** X7. A route limit or a method limit alone cannot raise the limit above
    [maxRequests]: the limit used is the smaller of the route's and the
    method's, and the missing one counts as [maxRequests]. *)
Theorem lone_limit_cannot_exceed_maxRequests (req : Req) :
  (methodLimits cfg !! method req = None →
   effectiveLimit cfg req ≤ maxRequests cfg) ∧
  (matchingLimits cfg (path req) = [] →
   effectiveLimit cfg req ≤ maxRequests cfg) ∧
  effectiveLimit cfg req ≤ getRouteLimit cfg (path req) ∧
  effectiveLimit cfg req ≤ getMethodLimit cfg (method req).
Proof.
  unfold effectiveLimit, getRouteLimit, getMethodLimit, matchingLimits.
  rewrite routeLimitFrom_head. split; [|split].
  - intros ->. simpl. lia.
  - intros ->. simpl. lia.
  - lia.
Qed.

(** X8. A janitor sweep only removes.  Every ban it leaves was there and has
    not expired at the sweep's clock reading [t]; every window record it
    leaves was there and was first seen at most [windowMs] before [t]; every
    violation record it leaves is the old one restricted to the timestamps
    less than [2 * windowMs] old, of which there is at least one.  When the
    window records left by the idle cleanup do not exceed [maxStoreSize], all
    of them stay. *)
Theorem sweep_only_removes (w : World) :
  let t := Date_now (reads w) in
  let w' := (cleanupTick cfg w).2 in
  (∀ key b, bans w' !! key = Some b →
     bans w !! key = Some b ∧ t ≤ b_expiresAt b) ∧
  (∀ e, e ∈ requests w' →
     e ∈ requests w ∧ t - w_firstRequest e.2 ≤ windowMs cfg) ∧
  (∀ key r, violations w' !! key = Some r →
     v_timestamps r ≠ [] ∧
     ∃ r0, violations w !! key = Some r0 ∧
           v_timestamps r =
           filter (λ time, t - time < windowMs cfg * 2) (v_timestamps r0)) ∧
  (JsMap.size (live cfg t (requests w)) ≤ maxStoreSize cfg →
   requests w' = live cfg t (requests w)).
Proof.
  intros t w'. subst w'. split; [|split; [|split]].
  - intros key b. rewrite cleanupTick_bans.
    intros [Hb Ht]%map_lookup_filter_Some. simpl in Ht. fold t in Ht.
    split; [done|lia].
  - intros e. rewrite cleanupTick_requests. fold t. intros He.
    assert (e ∈ live cfg t (requests w)) as Hlive.
    { destruct (decide _); [|done].
      by apply list_elem_of_filter in He as [_ ?]. }
    apply list_elem_of_filter in Hlive as [Hyoung Hold]. split; [done|lia].
  - intros key r. rewrite cleanupTick_violations, lookup_omap. fold t.
    destruct (violations w !! key) as [r0|]; [|done]. simpl.
    unfold pruneViolation. destruct (decide _) as [|Hlen]; [done|].
    intros [= <-]. simpl. split; [|by exists r0].
    intros Hnil. apply Hlen. by rewrite Hnil.
  - intros Hle. rewrite cleanupTick_requests. fold t.
    by rewrite decide_False by lia.
Qed.

(** X9. [getRateLimitInfo] of a key that no store knows reports no request,
    no violation and no ban, the whole of [maxRequests] as remaining (0 when
    [maxRequests] is negative) and the clock reading as reset time; it reads
    the clock once and changes no store. *)
Theorem info_of_unknown_key (key : string) (w : World) :
  JsMap.get key (requests w) = None →
  violations w !! key = None →
  bans w !! key = None →
  getRateLimitInfo cfg key w =
  ({| i_requests := 0; i_remaining := Z.max 0 (maxRequests cfg);
      i_violations := 0; i_banned := false; i_banExpiry := None;
      i_resetTime := Date_now (reads w) |},
   {| requests := requests w; violations := violations w; bans := bans w;
      reads := S (reads w) |}).
Proof.
  intros Hr Hv Hb. unfold getRateLimitInfo. run.
  rewrite (isIPBanned_none _ _ Hb), Hr, Hv, Hb. simpl.
  by rewrite Z.sub_0_r.
Qed.

(** X10. When no ban is stored for the key of a request that is neither
    skipped nor listed, the outcome is decided by the count alone: the request
    is passed on when [isRateLimited] admits it and denied as a rate limit
    otherwise; it is never answered as a ban, also when this very request
    brings the violation count to the threshold and creates the ban. *)
Theorem request_that_triggers_ban_is_rate_limited
    (lg : bool) (req : Req) (w : World) :
  skip cfg req = false →
  skipOptions cfg && bool_decide (method req = "OPTIONS"%string) = false →
  generateKey cfg req ∉ whitelist cfg →
  generateKey cfg req ∉ blacklist cfg →
  bans w !! generateKey cfg req = None →
  let limited := (isRateLimited cfg (generateKey cfg req) req w).1 in
  (limited = false → (middleware cfg lg req w).1 = Next) ∧
  (limited = true → ∃ r, (middleware cfg lg req w).1 = Denied false r).
Proof.
  intros Hskip Hopt Hwl Hbl Hban limited. subst limited. unfold middleware.
  rewrite Hskip, Hopt, !bool_decide_eq_false_2 by done.
  unfold bind. rewrite (isIPBanned_none _ _ Hban).
  destruct (isRateLimited cfg (generateKey cfg req) req w) as [limited w1].
  simpl. split; [by intros ->|]. intros ->. destruct lg; simpl.
  - destruct (getRateLimitInfo cfg (generateKey cfg req) w1) as [info w2].
    apply handleRateLimit_outcome.
  - apply handleRateLimit_outcome.
Qed.

Lemma slideOrReset_counts t d :
  w_count d = Z.of_nat (length (w_requests d)) →
  w_count (slideOrReset cfg t d) =
  Z.of_nat (length (w_requests (slideOrReset cfg t d))).
Proof.
  intros Hd. unfold slideOrReset.
  destruct (decide (windowType cfg = _)); [done|]. by destruct (decide _).
Qed.

Lemma isRateLimited_windowsOk key req w :
  windowsOk w → windowsOk (isRateLimited cfg key req w).2.
Proof.
  unfold windowsOk. intros Hw. rewrite isRateLimited_requests.
  apply Forall_set; [done|]. unfold windowOk. simpl.
  set (d0 := default _ (JsMap.get key (requests w))).
  assert (w_count d0 = Z.of_nat (length (w_requests d0))) as Hd0.
  { subst d0. destruct (JsMap.get key (requests w)) as [p|] eqn:Hg; [|done].
    by destruct (get_Forall _ _ _ _ Hw Hg). }
  apply (slideOrReset_counts (Date_now (reads w))) in Hd0.
  rewrite length_app. simpl. lia.
Qed.

(** The request store after the middleware is the one before, or the one
    [isRateLimited] makes of it. *)
Lemma middleware_requests_cases lg req w :
  requests (middleware cfg lg req w).2 = requests w ∨
  ∃ w1, requests w1 = requests w ∧
        requests (middleware cfg lg req w).2 =
        requests (isRateLimited cfg (generateKey cfg req) req w1).2.
Proof.
  unfold middleware.
  destruct (skip cfg req); [by left|].
  destruct (skipOptions cfg && _); [by left|].
  destruct (bool_decide (_ ∈ whitelist cfg)); [by left|].
  destruct (bool_decide (_ ∈ blacklist cfg));
    [left; apply handleRateLimit_frame|].
  unfold bind.
  pose proof (isIPBanned_frame (generateKey cfg req) w) as [Hf _].
  destruct (isIPBanned (generateKey cfg req) w) as [banned w1]. simpl in Hf.
  destruct banned.
  - left. rewrite <- Hf. apply handleRateLimit_frame.
  - right. exists w1. split; [done|].
    destruct (isRateLimited cfg (generateKey cfg req) req w1) as [limited w2].
    destruct limited; [|done]. simpl. destruct lg; simpl.
    + pose proof (getRateLimitInfo_frame cfg (generateKey cfg req) w2) as [Hg _].
      destruct (getRateLimitInfo cfg (generateKey cfg req) w2) as [info w3].
      simpl in *. rewrite <- Hg. apply handleRateLimit_frame.
    + apply handleRateLimit_frame.
Qed.

(** X11. With neither [skipSuccessfulRequests] nor [skipFailedRequests] set,
    every window record in every world a limiter can be in has
    [count == len(requests)] and at least one timestamp, in sliding and in
    fixed mode. *)
Theorem window_count_is_length (w : World) :
  skipSuccessfulRequests cfg = false →
  skipFailedRequests cfg = false →
  reachable cfg w →
  ∀ key d, JsMap.get key (requests w) = Some d →
           w_count d = Z.of_nat (length (w_requests d)) ∧ 1 ≤ w_count d.
Proof.
  intros Hs Hf Hreach.
  assert (windowsOk w) as Hok; [|intros key d Hg; exact (get_Forall _ _ _ _ Hok Hg)].
  induction Hreach as [|lg req w _ IH|w _ IH|key st w _ IH|key req w _ IH
                       |key w _ IH|key w _ IH|key w _ IH|key w _ IH|key w _ IH].
  - constructor.
  - destruct (middleware_requests_cases lg req w) as [Heq|(w1 & H1 & Heq)];
      unfold windowsOk; rewrite Heq; [done|].
    apply isRateLimited_windowsOk. unfold windowsOk. by rewrite H1.
  - unfold windowsOk. rewrite cleanupTick_requests.
    assert (Forall (λ e, windowOk e.2) (live cfg (Date_now (reads w)) (requests w)))
      as Hlive by (by apply Forall_kept).
    destruct (decide _); [by apply Forall_kept|done].
  - unfold onFinish. rewrite Hs, Hf.
    by destruct (bool_decide (st < 400)).
  - by apply isRateLimited_windowsOk.
  - unfold windowsOk. by rewrite handleViolation_requests.
  - done.
  - unfold windowsOk. by rewrite (proj1 (isIPBanned_frame key w)).
  - unfold windowsOk. by rewrite (proj1 (getRateLimitInfo_frame cfg key w)).
  - unfold reset, windowsOk. destruct key as [k|]; [|by constructor].
    destruct (decide (k = _)); [by constructor|].
    run. by apply Forall_kept.
Qed.

(** X20. Lazy expiry in the middleware.  When the stored ban of a key has
    expired at the clock reading of the ban check, a request that is neither
    skipped nor listed is counted like any other, in the world without that
    ban: it is passed on when [isRateLimited] admits it there, and denied as
    a rate limit otherwise. *)
Theorem expired_ban_is_lifted_by_next_request
    (lg : bool) (req : Req) (w : World) (b : BanRecord) :
  skip cfg req = false →
  skipOptions cfg && bool_decide (method req = "OPTIONS"%string) = false →
  generateKey cfg req ∉ whitelist cfg →
  generateKey cfg req ∉ blacklist cfg →
  bans w !! generateKey cfg req = Some b →
  b_expiresAt b < Date_now (reads w) →
  let w1 := {| requests := requests w; violations := violations w;
               bans := delete (generateKey cfg req) (bans w);
               reads := S (reads w) |} in
  let r := isRateLimited cfg (generateKey cfg req) req w1 in
  requests (middleware cfg lg req w).2 = requests r.2 ∧
  violations (middleware cfg lg req w).2 = violations r.2 ∧
  (r.1 = false → middleware cfg lg req w = (Next, r.2)) ∧
  (r.1 = true → ∃ reply, (middleware cfg lg req w).1 = Denied false reply).
Proof.
  intros Hskip Hopt Hwl Hbl Hban Hexp w1 r. subst r. unfold middleware.
  rewrite Hskip, Hopt, !bool_decide_eq_false_2 by done.
  unfold bind. rewrite (isIPBanned_expired _ _ _ Hban Hexp). fold w1.
  destruct (isRateLimited cfg (generateKey cfg req) req w1) as [limited w2].
  destruct limited; simpl; [|done].
  assert (∀ w3, requests w3 = requests w2 → violations w3 = violations w2 →
            requests (handleRateLimit cfg (generateKey cfg req) false w3).2
              = requests w2 ∧
            violations (handleRateLimit cfg (generateKey cfg req) false w3).2
              = violations w2 ∧
            (true = false →
             handleRateLimit cfg (generateKey cfg req) false w3 = (Next, w2)) ∧
            (true = true → ∃ reply,
               (handleRateLimit cfg (generateKey cfg req) false w3).1
                 = Denied false reply)) as Hdeny.
  { intros w3 Hr Hv.
    destruct (handleRateLimit_frame cfg (generateKey cfg req) false w3) as [-> ->].
    repeat split; try done. intros _. apply handleRateLimit_outcome. }
  destruct lg; simpl; [|by apply Hdeny].
  pose proof (getRateLimitInfo_frame cfg (generateKey cfg req) w2) as [Hr Hv].
  destruct (getRateLimitInfo cfg (generateKey cfg req) w2) as [info w3].
  by apply Hdeny.
Qed.

End RateLimiterMore.

(** X12. The constructor reads a numeric option with [||]: an option given as
    0 is replaced by its default like an absent one, so none of these options
    of a limiter is ever 0, and its window type is never the empty string. *)
Theorem constructor_replaces_zero (raw : RawConfig) :
  let c := constructor raw in
  windowMs c ≠ 0 ∧ maxRequests c ≠ 0 ∧ statusCode c ≠ 0 ∧
  maxViolations (autoBan c) ≠ 0 ∧ banDurationMs (autoBan c) ≠ 0 ∧
  cleanupInterval c ≠ 0 ∧ maxStoreSize c ≠ 0 ∧ windowType c ≠ ""%string.
Proof.
  assert (∀ x d, d ≠ 0 → js_or x d ≠ 0) as Hjs.
  { intros [v|] d Hd; simpl; [|done]. by destruct (decide (v = 0)). }
  simpl. repeat (split; [by apply Hjs|]).
  unfold js_or_str. destruct (r_windowType raw) as [s|]; [|done].
  by destruct (decide (s = _)).
Qed.

(** ** [getRequestInfo] *)

Lemma get_entries {V} (req : string → V) (ks : list string) (k : string) :
  JsMap.get k ((λ k, (k, req k)) <$> ks) =
  if decide (k ∈ ks) then Some (req k) else None.
Proof.
  induction ks as [|k0 ks IH].
  - rewrite decide_False; [done|]. apply not_elem_of_nil.
  - rewrite fmap_cons. cbn [JsMap.get].
    destruct (decide (k0 = k)) as [->|Hne].
    + rewrite decide_True; [done|left].
    + rewrite IH. apply decide_ext. rewrite elem_of_cons.
      split; [by right|]. intros [?|?]; [congruence|done].
Qed.

Lemma get_included_entries {V} (req : string → V) (names ks : list string)
    (k : string) :
  JsMap.get k (filter (λ e, e.1 ∈ names) ((λ k, (k, req k)) <$> ks)) =
  if decide (k ∈ names ∧ k ∈ ks) then Some (req k) else None.
Proof.
  induction ks as [|k0 ks IH].
  - rewrite decide_False; [done|]. intros [_ Hin]. by apply elem_of_nil in Hin.
  - rewrite fmap_cons, filter_cons. cbn [fst].
    destruct (decide (k0 ∈ names)) as [Hk0|Hk0]; cbn [JsMap.get].
    + destruct (decide (k0 = k)) as [->|Hne].
      * rewrite decide_True; [done|]. split; [done|left].
      * rewrite IH. apply decide_ext. rewrite elem_of_cons.
        split; [intros [? ?]; split; [done|by right]|].
        intros [? [?|?]]; [congruence|done].
    + rewrite IH. apply decide_ext. rewrite elem_of_cons.
      split; [intros [? ?]; split; [done|by right]|].
      intros [? [->|?]]; done.
Qed.

Lemma keys_included_entries {V} (req : string → V) (names ks : list string) :
  (filter (λ e, e.1 ∈ names) ((λ k, (k, req k)) <$> ks)).*1 =
  filter (λ k, k ∈ names) ks.
Proof.
  induction ks as [|k0 ks IH]; [done|].
  rewrite fmap_cons, !filter_cons. cbn [fst].
  destruct (decide (k0 ∈ names)); [|done]. rewrite fmap_cons. cbn [fst].
  by rewrite IH.
Qed.

(** X13. With [options.include], [getRequestInfo] returns the properties of
    the request whose names are among the thirteen known ones and in
    [include], in the order of the known names, with the value the request
    has for each: names that are not known are ignored, repetitions and the
    order of [include] do not matter, and an empty [include] gives an empty
    object.  Without it, all thirteen are returned. *)
Theorem getRequestInfo_selects {V} (req : string → V) (names : list string) :
  (getRequestInfo req (Some names)).*1 = filter (λ k, k ∈ names) infoKeys ∧
  (∀ k, JsMap.get k (getRequestInfo req (Some names)) =
        if decide (k ∈ names ∧ k ∈ infoKeys) then Some (req k) else None) ∧
  getRequestInfo req (Some []) = [] ∧
  (∀ k, JsMap.get k (getRequestInfo req None) =
        if decide (k ∈ infoKeys) then Some (req k) else None).
Proof.
  unfold getRequestInfo. split; [|split; [|split]].
  - apply keys_included_entries.
  - intros k. apply get_included_entries.
  - apply filter_none. intros e _ Hin. by apply elem_of_nil in Hin.
  - intros k. apply get_entries.
Qed.

(** ** Further properties of the WebSocket admission path *)

Ltac ws_run :=
  unfold onConnection, onMessage, handleMessage, handleClose, handleError,
    checkRateLimit, setupConnection, limiterTimeout, add_connectionStats,
    add_messageStats, set_connections, set_rateLimiters, ws_now, bind, ret,
    getState;
  simpl.

Section WebSocketMore.
Context `{host : Host}.
Variable cfg : WsConfig.

Lemma checkRateLimit_frame ip w :
  connections (checkRateLimit cfg ip w).2 = connections w ∧
  activeConnections (checkRateLimit cfg ip w).2 = activeConnections w ∧
  totalConnections (checkRateLimit cfg ip w).2 = totalConnections w.
Proof. ws_run. by destruct (rateLimiters w !! ip). Qed.

(** A connection attempt either registers the connection under its id and
    adds one to both counters, which needs room under [maxConnections], or is
    closed and leaves connections and counters as they were. *)
Lemma onConnection_cases id ip authOk w :
  let r := onConnection cfg id ip authOk w in
  (r.1 = Connected ∧ activeConnections w < maxConnections cfg ∧
   (∃ c, connections r.2 = <[id := c]> (connections w) ∧ c_ip c = ip ∧
         c_messageCount c = 0) ∧
   activeConnections r.2 = activeConnections w + 1 ∧
   totalConnections r.2 = totalConnections w + 1) ∨
  ((∃ reason, r.1 = Closed4000 reason) ∧
   connections r.2 = connections w ∧
   activeConnections r.2 = activeConnections w ∧
   totalConnections r.2 = totalConnections w).
Proof.
  intros r. assert (r = onConnection cfg id ip authOk w) as Hr by done.
  clearbody r. unfold onConnection in Hr. unfold bind, getState, ret in Hr.
  destruct (decide (maxConnections cfg ≤ activeConnections w)) as [Hfull|Hroom].
  { subst r. right. split; [by eexists|done]. }
  assert (∃ b w1, (if rl_enabled cfg then checkRateLimit cfg ip
                   else λ w0, (false, w0)) w = (b, w1) ∧
                  connections w1 = connections w ∧
                  activeConnections w1 = activeConnections w ∧
                  totalConnections w1 = totalConnections w)
    as (b & w1 & Hrun & Hc & Ha & Ht).
  { destruct (rl_enabled cfg).
    - pose proof (checkRateLimit_frame ip w) as Hf.
      destruct (checkRateLimit cfg ip w) as [b w1]. by exists b, w1.
    - by exists false, w. }
  rewrite Hrun in Hr. destruct b.
  { subst r. right. split; [by eexists|done]. }
  destruct (auth_enabled cfg && negb authOk).
  { subst r. right. split; [by eexists|done]. }
  subst r. left. ws_run. rewrite Hc, Ha, Ht.
  split; [done|]. split; [lia|]. split; [|done]. by eexists.
Qed.

(** X14. With authentication off, the connection handler runs to its end
    before the next event.  Then in every state the support can be in, the
    counter [activeConnections] is the number of registered connections, and
    with a non-negative [maxConnections] it never exceeds it. *)
Theorem active_connections_within_cap (w : WsWorld) :
  auth_enabled cfg = false →
  wsReachable cfg w →
  activeConnections w = Z.of_nat (size (connections w)) ∧
  (0 ≤ maxConnections cfg → activeConnections w ≤ maxConnections cfg).
Proof.
  intros _ Hreach.
  induction Hreach as [|id ip authOk w _ [IHn IHc] Hfresh|id len w _ [IHn IHc]
                       |id w _ [IHn IHc]|ip w _ IH].
  - split; [done|]. simpl. lia.
  - destruct (onConnection_cases id ip authOk w)
      as [(_ & Hroom & (c & Hc & _) & Ha & _)|(_ & Hc & Ha & _)];
      rewrite Ha, Hc.
    + rewrite map_size_insert_None by done. split; lia.
    + done.
  - ws_run. destruct (connections w !! id) as [c|] eqn:Hc; simpl; [|done].
    destruct (rl_enabled cfg); simpl;
      [destruct (rateLimiters w !! c_ip c); simpl;
         [destruct (bool_decide _); simpl|]|];
      by rewrite map_size_insert_Some by (by eexists).
  - ws_run. destruct (connections w !! id) as [c|] eqn:Hc; simpl; [|done].
    rewrite map_size_delete_Some by (by eexists).
    assert (size (connections w) ≠ 0%nat) as Hpos.
    { intros Hz. apply map_size_empty_inv in Hz. by rewrite Hz in Hc. }
    split; lia.
  - done.
Qed.

(** X15. A connection attempt refused by one of the two checks that come
    first, the total cap ('Max connections reached') or the rate-limit check
    ('Rate limit exceeded'), registers no connection and moves neither
    [activeConnections] nor [totalConnections]: such a refusal takes no
    capacity.  At the total cap the attempt is refused before anything is
    written, and the state is as before. *)
Theorem refused_connection_takes_no_slot (id ip : string) (authOk : bool)
    (w : WsWorld) (reason : string) :
  (maxConnections cfg ≤ activeConnections w →
   onConnection cfg id ip authOk w = (Closed4000 "Max connections reached", w)) ∧
  (reason = "Max connections reached"%string ∨
   reason = "Rate limit exceeded"%string →
   (onConnection cfg id ip authOk w).1 = Closed4000 reason →
   connections (onConnection cfg id ip authOk w).2 = connections w ∧
   activeConnections (onConnection cfg id ip authOk w).2 = activeConnections w ∧
   totalConnections (onConnection cfg id ip authOk w).2 = totalConnections w).
Proof.
  split.
  - intros Hfull. unfold onConnection, bind, getState, ret.
    by rewrite decide_True.
  - intros _ Hres.
    destruct (onConnection_cases id ip authOk w) as [(Hc & _)|(_ & H)]; [|done].
    by rewrite Hc in Hres.
Qed.

(** X16. Closing a registered connection removes it and takes one from
    [activeConnections]; it leaves [totalConnections] and the limiters alone.
    A second close of the same id changes nothing: a slot is released once. *)
Theorem close_releases_one_slot (id : string) (c : Connection) (w : WsWorld) :
  connections w !! id = Some c →
  let w1 := (handleClose id w).2 in
  connections w1 = delete id (connections w) ∧
  activeConnections w1 = activeConnections w - 1 ∧
  totalConnections w1 = totalConnections w ∧
  rateLimiters w1 = rateLimiters w ∧
  handleClose id w1 = (tt, w1).
Proof.
  intros Hc w1. subst w1. ws_run. rewrite Hc. simpl.
  rewrite lookup_delete_eq. repeat split; done || lia.
Qed.

(** X17. With rate limiting on, a message on a registered connection whose
    address has a limiter adds one to the limiter's count, throws exactly when
    the new count exceeds [maxMessages], and is counted in the connection's
    [messageCount] either way.  The thrown error adds one to [errors]; it
    closes nothing: the connection stays registered and [activeConnections]
    stays. *)
Theorem message_counts_against_limiter (id : string) (len : Z)
    (c : Connection) (l : Limiter) (w : WsWorld) :
  rl_enabled cfg = true →
  connections w !! id = Some c →
  rateLimiters w !! c_ip c = Some l →
  let r := handleMessage cfg id len w in
  let w' := (onMessage cfg id len w).2 in
  r.1 = bool_decide (l_count l + 1 ≤ maxMessages cfg) ∧
  rateLimiters r.2 !! c_ip c =
    Some {| l_count := l_count l + 1; l_resetTime := l_resetTime l |} ∧
  c_messageCount <$> connections w' !! id = Some (c_messageCount c + 1) ∧
  activeConnections w' = activeConnections w ∧
  errors w' = errors w + (if bool_decide (l_count l + 1 ≤ maxMessages cfg) then 0 else 1).
Proof.
  intros Hen Hc Hl r w'. subst r w'. ws_run. rewrite Hc, Hen, Hl. simpl.
  rewrite lookup_insert_eq. split; [done|]. split; [done|].
  destruct (bool_decide _); simpl; rewrite lookup_insert_eq; simpl;
    repeat split; done || lia.
Qed.

Lemma handleMessage_without_limiter id len c w :
  connections w !! id = Some c →
  rateLimiters w !! c_ip c = None →
  (handleMessage cfg id len w).1 = true ∧
  rateLimiters (handleMessage cfg id len w).2 = rateLimiters w ∧
  ∃ c', connections (handleMessage cfg id len w).2 !! id = Some c' ∧
        c_ip c' = c_ip c.
Proof.
  intros Hc Hl. ws_run. rewrite Hc, Hl. simpl.
  destruct (rl_enabled cfg); simpl; rewrite lookup_insert_eq;
    repeat split; eauto.
Qed.

(** X18. A message is checked against the limiter of its address only while
    that limiter exists.  Once the limiter's timer has deleted it, any number
    of messages on a connection of that address pass, and none of them
    creates a limiter: [maxMessages] is not enforced again before the next
    connection attempt from the address. *)
Theorem messages_unchecked_without_limiter (id : string) (lens : list Z)
    (c : Connection) (w : WsWorld) :
  connections w !! id = Some c →
  rateLimiters w !! c_ip c = None →
  (messagesAll cfg id lens w).1 = replicate (length lens) true ∧
  rateLimiters (messagesAll cfg id lens w).2 = rateLimiters w.
Proof.
  revert c w. induction lens as [|len lens IH]; intros c w Hc Hl; [done|].
  cbn [messagesAll length replicate]. unfold bind, ret.
  destruct (handleMessage_without_limiter id len c w Hc Hl)
    as (Hok & Hrl & c' & Hc' & Hip).
  destruct (handleMessage cfg id len w) as [ok w1]. simpl in *. subst ok.
  rewrite <- Hip, <- Hrl in Hl.
  destruct (IH c' w1 Hc' Hl) as [Hoks Hrls].
  destruct (messagesAll cfg id lens w1) as [oks w2]. simpl in *.
  by rewrite Hoks, Hrls, Hrl.
Qed.

(** X19. What the connect-time check counts is messages.  With rate limiting
    on and room under [maxConnections], a connection attempt from an address
    whose limiter has counted [maxConnectionsPerIP] messages or more is closed
    with 'Rate limit exceeded', and the state is as before. *)
Theorem counted_messages_refuse_connections (id ip : string) (authOk : bool)
    (l : Limiter) (w : WsWorld) :
  rl_enabled cfg = true →
  activeConnections w < maxConnections cfg →
  rateLimiters w !! ip = Some l →
  maxConnectionsPerIP cfg ≤ l_count l →
  onConnection cfg id ip authOk w = (Closed4000 "Rate limit exceeded", w).
Proof.
  intros Hen Hroom Hl Hcount. ws_run.
  rewrite decide_False by lia. rewrite Hen. simpl. rewrite Hl. simpl.
  rewrite Hl. simpl. by rewrite bool_decide_eq_true_2.
Qed.

End WebSocketMore.

(** * The model on concrete inputs *)

Lemma c1_sliding_window_count_witness :
  windowType (cfgTight None None) = "sliding"%string ∧
  let w' := (isRateLimited (host := hSweep) (cfgTight None None) "a" reqA wSweep).2 in
  JsMap.get "a"%string (requests wSweep)
    = Some {| w_count := 2; w_firstRequest := 0; w_requests := [0; 900] |} ∧
  (∃ d, JsMap.get "a"%string (requests w') = Some d ∧
        w_count d = 2 ∧ w_requests d = [900; 1500]).
Proof.
  split; [reflexivity|]. split; [reflexivity|].
  exact (proj1 (c1_sliding_window_count (host := hSweep) (cfgTight None None)
                  "a" reqA wSweep eq_refl)).
Defined.

(** C2 fails as stated: with the patterns "/api" (limit 2) and "/api/auth"
    (limit 1), both matching "/api/auth/login", the smallest matching limit is
    1, yet the limit used is 2 and the second request is passed on. *)
Lemma c2_counterexample :
  specEffectiveLimit (host := hostOf [1000]) cfgOverlap reqLogin = 1 ∧
  effectiveLimit (host := hostOf [1000]) cfgOverlap reqLogin = 2 ∧
  (serve (H := hostOf [1000]) cfgOverlap [reqLogin; reqLogin] emptyWorld).1
    = [Next; Next].
Proof. vm_compute. repeat split; reflexivity. Qed.

(** C3 fails as stated: with [maxStoreSize = 100] and 150 fresh keys, one
    sweep deletes the 20 keys first seen and leaves 130 entries. *)
Lemma c3_counterexample :
  maxStoreSize cfg100 = 100 ∧
  JsMap.size (requests w150) = 150 ∧
  let w' := (cleanupTick (host := h150) cfg100 w150).2 in
  JsMap.size (requests w') = 130 ∧
  JsMap.keys (requests w') = pretty <$> seq 20 130.
Proof. vm_compute. repeat split; reflexivity. Qed.

Lemma c3_sweep_evicts_fifth_of_capacity_witness :
  JsMap.wf (requests w150) ∧
  0 ≤ maxStoreSize cfg100 ∧
  let m := live cfg100 (Date_now (Host := h150) (reads w150)) (requests w150) in
  maxStoreSize cfg100 < JsMap.size m ∧
  let m' := requests (cleanupTick (host := h150) cfg100 w150).2 in
  JsMap.size m' = JsMap.size m - maxStoreSize cfg100 `div` 5 ∧
  m' `sublist_of` m ∧
  (∀ e e', e ∈ m → e ∉ m' → e' ∈ m' → olderEq e e').
Proof.
  assert (JsMap.wf (requests w150)) as Hwf.
  { apply (bool_decide_unpack _). vm_compute. exact I. }
  assert (0 ≤ maxStoreSize cfg100) as Hmax by (vm_compute; discriminate).
  assert (maxStoreSize cfg100 <
          JsMap.size (live cfg100 (Date_now (Host := h150) (reads w150))
                        (requests w150))) as Hsize by (vm_compute; reflexivity).
  split; [exact Hwf|]. split; [exact Hmax|]. split; [exact Hsize|].
  exact (c3_sweep_evicts_fifth_of_capacity (host := h150) cfg100 w150
           Hwf Hmax Hsize).
Defined.

(** C4 fails as stated: the address "a" has a violation count of 1, before
    and after the sweep at 1500, and the sweep deletes its window record,
    first seen at 0. *)
Lemma c4_counterexample :
  JsMap.get "a"%string (requests wSweep)
    = Some {| w_count := 2; w_firstRequest := 0; w_requests := [0; 900] |} ∧
  violations wSweep !! "a"%string = Some {| v_count := 1; v_timestamps := [900] |} ∧
  let w' := (cleanupTick (host := hSweep) (cfgTight None None) wSweep).2 in
  violations w' !! "a"%string = Some {| v_count := 1; v_timestamps := [900] |} ∧
  JsMap.get "a"%string (requests w') = None.
Proof. vm_compute. repeat split; reflexivity. Qed.

Lemma c4_sweep_keeps_bans_ignores_violations_witness :
  bans wFar !! "a"%string = Some banFar ∧
  Date_now (Host := hFar) (reads wFar) ≤ b_expiresAt banFar ∧
  bans (cleanupTick (host := hFar) cfgBan2 wFar).2 !! "a"%string = Some banFar.
Proof.
  assert (bans wFar !! "a"%string = Some banFar) as Hb
    by (vm_compute; reflexivity).
  assert (Date_now (Host := hFar) (reads wFar) ≤ b_expiresAt banFar) as Ht
    by (vm_compute; discriminate).
  split; [exact Hb|]. split; [exact Ht|].
  exact (proj1 (c4_sweep_keeps_bans_ignores_violations (host := hFar) cfgBan2 wFar)
           "a"%string banFar Hb Ht).
Defined.

(** C5 fails as stated: the violations of "a" at 10 and at 5001 are 4991 ms
    apart, more than [2 * windowMs = 2000]; the record after the second one
    still holds the timestamp 10 and the count 2, and that count reaches
    [maxViolations = 2], so the address is banned. *)
Lemma c5_counterexample :
  2 * windowMs cfgBan2 = 2000 ∧
  violations wFar !! "a"%string
    = Some {| v_count := 2; v_timestamps := [10; 5001] |} ∧
  bans wFar !! "a"%string = Some banFar.
Proof. vm_compute. repeat split; reflexivity. Qed.

Lemma c5_violations_pruned_by_sweep_only_witness :
  (∀ k r, violations wSweep !! k = Some r → violationOk r) ∧
  let w1 := (handleViolation (host := hSweep) (cfgTight None None) "a" wSweep).2 in
  violations w1 !! "a"%string
    = Some {| v_count := 2; v_timestamps := [900; 1500] |} ∧
  (∀ k r, violations w1 !! k = Some r → violationOk r).
Proof.
  assert (∀ k r, violations wSweep !! k = Some r → violationOk r) as Hinv.
  { apply (bool_decide_unpack
             (map_Forall (λ _ r, v_count r = Z.of_nat (length (v_timestamps r)))
                (violations wSweep))).
    vm_compute. exact I. }
  split; [exact Hinv|].
  destruct (c5_violations_pruned_by_sweep_only (host := hSweep)
              (cfgTight None None) "a" wSweep) as (Hrec & Hkeep & _).
  split; [exact Hrec|exact (Hkeep Hinv)].
Defined.

(** C6 fails as stated: with auto-ban left disabled, as it is by default, the
    violation count of "a" reaches [maxViolations = 2] and no ban is created. *)
Lemma c6_counterexample :
  enabled (autoBan cfgNoBan) = false ∧
  maxViolations (autoBan cfgNoBan) = 2 ∧
  violations wThree !! "a"%string
    = Some {| v_count := 2; v_timestamps := [1; 2] |} ∧
  bans wThree = ∅.
Proof. vm_compute. repeat split; reflexivity. Qed.

Lemma c6_ban_created_when_enabled_witness :
  enabled (autoBan cfgBan2) = true ∧
  maxViolations (autoBan cfgBan2) ≤ 1 + 1 ∧
  (∃ b, bans (handleViolation (host := hSweep) cfgBan2 "a" wSweep).2 !! "a"%string
          = Some b ∧
        b_expiresAt b = 1500 + banDurationMs (autoBan cfgBan2)) ∧
  bans wFar !! "a"%string = Some banFar ∧
  Date_now (Host := hFar) (reads wFar) ≤ b_expiresAt banFar ∧
  (isIPBanned (host := hFar) "a" wFar).1 = true.
Proof.
  assert (maxViolations (autoBan cfgBan2) ≤ 1 + 1) as Hreach
    by (vm_compute; discriminate).
  assert (bans wFar !! "a"%string = Some banFar) as Hb
    by (vm_compute; reflexivity).
  assert (Date_now (Host := hFar) (reads wFar) ≤ b_expiresAt banFar) as Ht
    by (vm_compute; discriminate).
  split; [reflexivity|]. split; [exact Hreach|].
  split.
  - exact (proj1 (c6_ban_created_when_enabled (host := hSweep) cfgBan2 "a" wSweep)
             eq_refl Hreach).
  - split; [exact Hb|]. split; [exact Ht|].
    exact (proj1 (proj1 (proj2 (proj2 (proj2
             (c6_ban_created_when_enabled (host := hFar) cfgBan2 "a" wFar)))
             banFar Hb) Ht)).
Defined.

(** C7 fails as stated: the address "a" is banned, the ban has not expired,
    and its OPTIONS request is passed on under [skipOptions]. *)
Lemma c7_counterexample :
  skipOptions cfgSkipOptions = true ∧
  (∃ b, bans wBanned !! generateKey cfgSkipOptions reqOptions = Some b ∧
        Date_now (Host := hBanned) (reads wBanned) ≤ b_expiresAt b) ∧
  (middleware (host := hBanned) cfgSkipOptions false reqOptions wBanned).1 = Next.
Proof.
  split; [reflexivity|]. split; [|reflexivity].
  exists {| b_timestamp := 1; b_violations := 1; b_expiresAt := 86400001 |}.
  split; [vm_compute; reflexivity|vm_compute; discriminate].
Qed.

Lemma c7_banned_request_mutates_no_counter_witness :
  bans wFar !! generateKey cfgBan2 reqA = Some banFar ∧
  Date_now (Host := hFar) (reads wFar) ≤ b_expiresAt banFar ∧
  let r := middleware (host := hFar) cfgBan2 false reqA wFar in
  (requests r.2 = requests wFar ∧ violations r.2 = violations wFar) ∧
  ∃ reply, r.1 = Denied true reply.
Proof.
  assert (bans wFar !! generateKey cfgBan2 reqA = Some banFar) as Hb
    by (vm_compute; reflexivity).
  assert (Date_now (Host := hFar) (reads wFar) ≤ b_expiresAt banFar) as Ht
    by (vm_compute; discriminate).
  split; [exact Hb|]. split; [exact Ht|].
  destruct (c7_banned_request_mutates_no_counter (host := hFar) cfgBan2 false
              reqA wFar banFar Hb Ht) as [Hframe Hout].
  split; [exact Hframe|].
  apply Hout; [reflexivity|reflexivity| |]; vm_compute; apply not_elem_of_nil.
Defined.

(** C8 fails as stated: an unresolved identity gives the empty key; under
    [routeLimits] alone a GET and a POST of one address and path share a key;
    and an identity that contains ':' collides with a path that does. *)
Lemma c8_counterexample :
  generateKey (constructor emptyRaw)
    {| ip := None; path := "/x"; method := "GET" |} = ""%string ∧
  generateKey cfgOverlap {| ip := Some "10.0.0.1"%string; path := "/api"; method := "GET" |}
  = generateKey cfgOverlap {| ip := Some "10.0.0.1"%string; path := "/api"; method := "POST" |} ∧
  generateKey cfgOverlap {| ip := Some "a"%string; path := "/b:/c"; method := "GET" |}
  = generateKey cfgOverlap {| ip := Some "a:/b"%string; path := "/c"; method := "GET" |}.
Proof. vm_compute. repeat split; reflexivity. Qed.

Lemma c8_keys_distinct_without_delimiter_witness :
  let r1 := {| ip := Some "10.0.0.1"%string; path := "/api"; method := "GET" |} in
  let r2 := {| ip := Some "10.0.0.1"%string; path := "/api"; method := "POST" |} in
  colonFree (js_str (keyGenerator cfgOverlap r1)) = true ∧
  colonFree (js_str (keyGenerator cfgOverlap r2)) = true ∧
  colonFree (path r1) = true ∧ colonFree (path r2) = true ∧
  generateKey cfgOverlap r1 = generateKey cfgOverlap r2 ∧
  (js_str (keyGenerator cfgOverlap r1) = js_str (keyGenerator cfgOverlap r2) ∧
   (routeLimits cfgOverlap ≠ [] → path r1 = path r2) ∧
   (methodLimits cfgOverlap ≠ ∅ → method r1 = method r2)).
Proof.
  cbv zeta. do 5 (split; [reflexivity|]).
  exact (proj2 (c8_keys_distinct_without_delimiter cfgOverlap
                  {| ip := Some "10.0.0.1"%string; path := "/api"; method := "GET" |}
                  {| ip := Some "10.0.0.1"%string; path := "/api"; method := "POST" |})
           eq_refl eq_refl eq_refl eq_refl eq_refl).
Defined.

(** C10 fails as stated: under [routeLimits], the whitelist entry "a:/api" is
    the bare identity of one request and nothing more, and it is the key of
    another request, from the identity "a" to the path "/api", which is
    passed on uncounted. *)
Lemma c10_counterexample :
  routeLimits cfgListed = [("/api", 2); ("/api/auth", 1)]%string ∧
  whitelist cfgListed = ["a:/api"%string] ∧
  js_str (keyGenerator cfgListed (get_ "/x" "a:/api")) = "a:/api"%string ∧
  js_str (keyGenerator cfgListed (get_ "/api" "a")) = "a"%string ∧
  generateKey cfgListed (get_ "/api" "a") = "a:/api"%string ∧
  middleware (host := hostOf [1000]) cfgListed false (get_ "/api" "a") emptyWorld
  = (Next, emptyWorld).
Proof. vm_compute. repeat split; reflexivity. Qed.

Lemma c10_lists_match_composite_key_witness :
  (routeLimits cfgOverlap ≠ [] ∨ methodLimits cfgOverlap ≠ ∅) ∧
  generateKey cfgOverlap reqLogin
    = ("10.0.0.1" +:+ ":" +:+ "/api/auth/login")%string ∧
  middleware (host := hostOf [1000]) (withLists cfgOverlap ["10.0.0.1"%string] [])
    false reqLogin emptyWorld
  = middleware (host := hostOf [1000]) (withLists cfgOverlap [] [])
      false reqLogin emptyWorld.
Proof.
  assert (routeLimits cfgOverlap ≠ [] ∨ methodLimits cfgOverlap ≠ ∅) as Hsc
    by (left; discriminate).
  destruct (c10_lists_match_composite_key (host := hostOf [1000]) cfgOverlap
              false reqLogin emptyWorld Hsc)
    as (Hkey & _ & _ & _ & _ & _ & Hbare).
  split; [exact Hsc|]. split; [exact Hkey|].
  apply Hbare.
  - intros e ->%list_elem_of_singleton. by left.
  - intros e He. by apply elem_of_nil in He.
Defined.

(** C9 at a failing input: with [maxConnectionsPerIP = 2], three connections
    in a row from one address, without any message, are all set up. *)
Lemma c9_connections_are_never_counted_witness :
  0 < maxConnectionsPerIP wsCfg2 ∧
  noMessagesYet "10.0.0.1" wsEmpty ∧
  (connectAll (host := hostOf [1000]) wsCfg2 ["c1"; "c2"; "c3"]%string
     "10.0.0.1" wsEmpty).1 = [Connected; Connected; Connected].
Proof.
  assert (noMessagesYet "10.0.0.1" wsEmpty) as Hno.
  { intros l Hl. unfold wsEmpty in Hl. simpl in Hl.
    by rewrite lookup_empty in Hl. }
  split; [reflexivity|]. split; [exact Hno|].
  apply (c9_connections_are_never_counted (host := hostOf [1000]) wsCfg2
           ["c1"; "c2"; "c3"]%string "10.0.0.1" wsEmpty);
    [reflexivity|exact Hno|vm_compute; discriminate].
Defined.

(** What the connect-time check does count: messages.  After two messages on
    one connection, the next connection from the same address is refused. *)
Lemma messages_trip_the_connection_check :
  let w :=
    ((let* _ := onConnection (host := hostOf [1000]) wsCfg2 "c1" "10.0.0.1" true in
      let* _ := onMessage wsCfg2 "c1" 10 in
      onMessage wsCfg2 "c1" 10) wsEmpty).2 in
  l_count <$> rateLimiters w !! "10.0.0.1"%string = Some 2 ∧
  (onConnection (host := hostOf [1000]) wsCfg2 "c2" "10.0.0.1" true w).1
  = Closed4000 "Rate limit exceeded".
Proof. vm_compute. split; reflexivity. Qed.

(** ** The further properties on concrete inputs *)

Lemma fixed_window_restarts_per_bucket_witness :
  0 < windowMs cfgFixed ∧
  JsMap.get "a"%string (requests wFixed)
    = Some {| w_count := 2; w_firstRequest := 1500; w_requests := [1500; 1700] |} ∧
  JsMap.get "a"%string
    (requests (isRateLimited (host := hostOf [2300]) cfgFixed "a" reqA wFixed).2)
  = Some {| w_count := 1; w_firstRequest := 2300; w_requests := [2300] |}.
Proof.
  assert (windowType cfgFixed ≠ "sliding"%string) as Hfixed by discriminate.
  assert (0 < windowMs cfgFixed) as Hpos by reflexivity.
  split; [exact Hpos|]. split; [reflexivity|].
  apply (fixed_window_restarts_per_bucket (host := hostOf [2300]) cfgFixed "a"
           reqA wFixed _ Hfixed Hpos eq_refl).
  reflexivity.
Defined.

Lemma sliding_record_within_window_witness :
  windowType (cfgTight None None) = "sliding"%string ∧
  0 < windowMs (cfgTight None None) ∧
  ∃ d, JsMap.get "a"%string
         (requests (isRateLimited (host := hSweep) (cfgTight None None) "a"
                      reqA wSweep).2) = Some d ∧
       Forall (λ time, 1500 - time < 1000) (w_requests d) ∧
       w_count d = Z.of_nat (length (w_requests d)).
Proof.
  split; [reflexivity|]. split; [reflexivity|].
  exact (sliding_record_within_window (host := hSweep) (cfgTight None None)
           "a" reqA wSweep eq_refl eq_refl).
Defined.

Lemma finish_rolls_back_the_count_witness :
  skipSuccessfulRequests cfgFixed = true ∧
  let w1 := (isRateLimited (host := hostOf [2300]) cfgFixed "a" reqA wFixed).2 in
  JsMap.get "a"%string (requests w1)
    = Some {| w_count := 1; w_firstRequest := 2300; w_requests := [2300] |} ∧
  JsMap.get "a"%string (requests (onFinish cfgFixed "a" 200 w1).2)
    = Some {| w_count := 0; w_firstRequest := 2300; w_requests := [] |}.
Proof.
  split; [reflexivity|]. split; [reflexivity|].
  exact (proj1 (finish_rolls_back_the_count (host := hostOf [2300]) cfgFixed
                  "a" reqA 200 wFixed eq_refl)).
Defined.

Lemma reset_forgets_the_key_witness :
  bans wFar !! "a"%string = Some banFar ∧
  let w' := (reset (Some "a"%string) wFar).2 in
  JsMap.get "a"%string (requests w') = None ∧
  violations w' !! "a"%string = None ∧ bans w' !! "a"%string = None.
Proof.
  split; [vm_compute; reflexivity|].
  destruct (proj1 (reset_forgets_the_key (host := hFar) cfgBan2 "a" reqA wFar))
    as (Hr & Hv & Hb & _); [discriminate|].
  exact (conj Hr (conj Hv Hb)).
Defined.

Lemma lists_decide_before_the_stores_witness :
  whitelist cfgFixed = ["w"%string] ∧ blacklist cfgFixed = ["w"; "b"]%string ∧
  middleware (host := hostOf [2300]) cfgFixed false (get_ "/" "w") wFixed
    = (Next, wFixed) ∧
  (∃ r, (middleware (host := hostOf [2300]) cfgFixed false (get_ "/" "b") wFixed).1
        = Denied false r).
Proof.
  split; [reflexivity|]. split; [reflexivity|]. split.
  - apply (proj1 (lists_decide_before_the_stores (host := hostOf [2300]) cfgFixed
                    false (get_ "/" "w") wFixed)).
    vm_compute. left.
  - apply (proj2 (lists_decide_before_the_stores (host := hostOf [2300]) cfgFixed
                    false (get_ "/" "b") wFixed)); try reflexivity.
    + vm_compute. intros [=]%list_elem_of_singleton.
    + vm_compute. right. left.
Defined.

Lemma violation_recorded_iff_denied_witness :
  (isRateLimited (host := hSweep) (cfgTight None None) "a" reqA wSweep).1 = true ∧
  violations
    (isRateLimited (host := hSweep) (cfgTight None None) "a" reqA wSweep).2
  = <[ "a"%string := {| v_count := 2; v_timestamps := [900; 1500] |} ]>
      (violations wSweep).
Proof.
  assert ((isRateLimited (host := hSweep) (cfgTight None None) "a" reqA wSweep).1
          = true) as Hden by (vm_compute; reflexivity).
  split; [exact Hden|].
  exact (proj2 (violation_recorded_iff_denied (host := hSweep)
                  (cfgTight None None) "a" reqA wSweep) Hden).
Defined.

Lemma lone_limit_cannot_exceed_maxRequests_witness :
  methodLimits cfgOverlap !! method reqLogin = None ∧
  effectiveLimit (host := hostOf [1000]) cfgOverlap reqLogin
  ≤ maxRequests cfgOverlap.
Proof.
  split; [reflexivity|].
  exact (proj1 (lone_limit_cannot_exceed_maxRequests (host := hostOf [1000])
                  cfgOverlap reqLogin) eq_refl).
Defined.

Lemma sweep_only_removes_witness :
  let w' := (cleanupTick (host := hFar) cfgBan2 wFar).2 in
  bans w' !! "a"%string = Some banFar ∧
  bans wFar !! "a"%string = Some banFar ∧
  Date_now (Host := hFar) (reads wFar) ≤ b_expiresAt banFar.
Proof.
  assert (bans (cleanupTick (host := hFar) cfgBan2 wFar).2 !! "a"%string
          = Some banFar) as Hb by (vm_compute; reflexivity).
  split; [exact Hb|].
  exact (proj1 (sweep_only_removes (host := hFar) cfgBan2 wFar) "a"%string
           banFar Hb).
Defined.

Lemma info_of_unknown_key_witness :
  JsMap.get "a"%string (requests emptyWorld) = None ∧
  (getRateLimitInfo (host := hostOf [1000]) cfg100 "a" emptyWorld).1
  = {| i_requests := 0; i_remaining := 100; i_violations := 0;
       i_banned := false; i_banExpiry := None; i_resetTime := 1000 |}.
Proof.
  split; [reflexivity|].
  by rewrite (info_of_unknown_key (host := hostOf [1000]) cfg100 "a" emptyWorld
                eq_refl (lookup_empty _) (lookup_empty _)).
Defined.

Lemma request_that_triggers_ban_is_rate_limited_witness :
  bans wFar3 !! generateKey cfgBan2 reqA = None ∧
  bans (middleware (host := hFar) cfgBan2 false reqA wFar3).2 !! "a"%string
    = Some banFar ∧
  ∃ r, (middleware (host := hFar) cfgBan2 false reqA wFar3).1 = Denied false r.
Proof.
  assert (bans wFar3 !! generateKey cfgBan2 reqA = None) as Hb
    by (vm_compute; reflexivity).
  split; [exact Hb|]. split; [vm_compute; reflexivity|].
  assert (generateKey cfgBan2 reqA ∉ whitelist cfgBan2) as Hwl
    by (vm_compute; apply not_elem_of_nil).
  assert (generateKey cfgBan2 reqA ∉ blacklist cfgBan2) as Hbl
    by (vm_compute; apply not_elem_of_nil).
  apply (proj2 (request_that_triggers_ban_is_rate_limited (host := hFar) cfgBan2
                  false reqA wFar3 eq_refl eq_refl Hwl Hbl Hb)).
  vm_compute. reflexivity.
Defined.

Lemma window_count_is_length_witness :
  reachable (H := hSweep) (cfgTight None None) wSweep ∧
  JsMap.get "a"%string (requests wSweep)
    = Some {| w_count := 2; w_firstRequest := 0; w_requests := [0; 900] |} ∧
  2 = Z.of_nat (length [0; 900]) ∧ 1 ≤ 2.
Proof.
  assert (reachable (H := hSweep) (cfgTight None None) wSweep) as Hr.
  { apply serve_reachable. constructor. }
  split; [exact Hr|]. split; [reflexivity|].
  exact (window_count_is_length (host := hSweep) (cfgTight None None) wSweep
           eq_refl eq_refl Hr "a"%string
           {| w_count := 2; w_firstRequest := 0; w_requests := [0; 900] |}
           eq_refl).
Defined.

Lemma active_connections_within_cap_witness :
  wsReachable (H := hWs) wsCfg2 wsOne ∧
  activeConnections wsOne = Z.of_nat (size (connections wsOne)) ∧
  activeConnections wsOne ≤ maxConnections wsCfg2.
Proof.
  assert (wsReachable (H := hWs) wsCfg2 wsOne) as Hr.
  { apply ws_onConnection; [constructor|apply lookup_empty]. }
  split; [exact Hr|].
  destruct (active_connections_within_cap (host := hWs) wsCfg2 wsOne eq_refl Hr)
    as [Hn Hc].
  split; [exact Hn|]. apply Hc. discriminate.
Defined.

Lemma refused_connection_takes_no_slot_witness :
  (onConnection (host := hWs) wsCfg2 "c2" "10.0.0.1" true wsTalked).1
    = Closed4000 "Rate limit exceeded" ∧
  activeConnections (onConnection (host := hWs) wsCfg2 "c2" "10.0.0.1" true wsTalked).2
    = activeConnections wsTalked.
Proof.
  assert ((onConnection (host := hWs) wsCfg2 "c2" "10.0.0.1" true wsTalked).1
          = Closed4000 "Rate limit exceeded") as Hres by (vm_compute; reflexivity).
  split; [exact Hres|].
  exact (proj1 (proj2 (proj2 (refused_connection_takes_no_slot (host := hWs)
                                wsCfg2 "c2" "10.0.0.1" true wsTalked _)
                         (or_intror eq_refl) Hres))).
Defined.

Lemma close_releases_one_slot_witness :
  connections wsOne !! "c1"%string = Some connOne ∧
  activeConnections wsOne = 1 ∧
  activeConnections (handleClose "c1" wsOne).2 = 1 - 1 ∧
  handleClose "c1" (handleClose "c1" wsOne).2 = (tt, (handleClose "c1" wsOne).2).
Proof.
  assert (connections wsOne !! "c1"%string = Some connOne) as Hc
    by (vm_compute; reflexivity).
  split; [exact Hc|]. split; [reflexivity|].
  destruct (close_releases_one_slot "c1" connOne wsOne Hc)
    as (_ & Ha & _ & _ & Hagain).
  split; [exact Ha|exact Hagain].
Defined.

Lemma message_counts_against_limiter_witness :
  rl_enabled wsCfg2 = true ∧
  connections wsOne !! "c1"%string = Some connOne ∧
  rateLimiters wsOne !! "10.0.0.1"%string
    = Some {| l_count := 0; l_resetTime := 61000 |} ∧
  (handleMessage wsCfg2 "c1" 10 wsOne).1 = true ∧
  rateLimiters (handleMessage wsCfg2 "c1" 10 wsOne).2 !! "10.0.0.1"%string
    = Some {| l_count := 1; l_resetTime := 61000 |}.
Proof.
  assert (connections wsOne !! "c1"%string = Some connOne) as Hc
    by (vm_compute; reflexivity).
  assert (rateLimiters wsOne !! c_ip connOne
          = Some {| l_count := 0; l_resetTime := 61000 |}) as Hl
    by (vm_compute; reflexivity).
  split; [reflexivity|]. split; [exact Hc|]. split; [exact Hl|].
  destruct (message_counts_against_limiter wsCfg2 "c1" 10 connOne _ wsOne
              eq_refl Hc Hl) as (Hres & Hcount & _).
  split; [exact Hres|exact Hcount].
Defined.

Lemma messages_unchecked_without_limiter_witness :
  maxMessages wsCfg2 = 100 ∧
  connections wsQuiet !! "c1"%string = Some connOne ∧
  rateLimiters wsQuiet !! "10.0.0.1"%string = None ∧
  (messagesAll wsCfg2 "c1" (replicate 150 1) wsQuiet).1 = replicate 150 true.
Proof.
  assert (connections wsQuiet !! "c1"%string = Some connOne) as Hc
    by (vm_compute; reflexivity).
  assert (rateLimiters wsQuiet !! c_ip connOne = None) as Hl
    by (vm_compute; reflexivity).
  split; [reflexivity|]. split; [exact Hc|]. split; [exact Hl|].
  exact (proj1 (messages_unchecked_without_limiter wsCfg2 "c1"
                  (replicate 150 1) connOne wsQuiet Hc Hl)).
Defined.

Lemma counted_messages_refuse_connections_witness :
  rateLimiters wsTalked !! "10.0.0.1"%string
    = Some {| l_count := 2; l_resetTime := 61000 |} ∧
  maxConnectionsPerIP wsCfg2 ≤ 2 ∧
  onConnection (host := hWs) wsCfg2 "c2" "10.0.0.1" true wsTalked
    = (Closed4000 "Rate limit exceeded", wsTalked).
Proof.
  assert (rateLimiters wsTalked !! "10.0.0.1"%string
          = Some {| l_count := 2; l_resetTime := 61000 |}) as Hl
    by (vm_compute; reflexivity).
  assert (maxConnectionsPerIP wsCfg2 ≤ 2) as Hcount by (vm_compute; discriminate).
  split; [exact Hl|]. split; [exact Hcount|].
  assert (activeConnections wsTalked < maxConnections wsCfg2) as Hroom
    by (vm_compute; reflexivity).
  exact (counted_messages_refuse_connections (host := hWs) wsCfg2 "c2"
           "10.0.0.1" true {| l_count := 2; l_resetTime := 61000 |} wsTalked
           eq_refl Hroom Hl Hcount).
Defined.

Lemma expired_ban_is_lifted_by_next_request_witness :
  bans wFar !! generateKey cfgBan2 reqA = Some banFar ∧
  b_expiresAt banFar < Date_now (Host := hostOf [90000000]) (reads wFar) ∧
  bans (middleware (host := hostOf [90000000]) cfgBan2 false reqA wFar).2
    !! "a"%string = None ∧
  middleware (host := hostOf [90000000]) cfgBan2 false reqA wFar
  = (Next,
     (isRateLimited (host := hostOf [90000000]) cfgBan2 "a" reqA
        {| requests := requests wFar; violations := violations wFar;
           bans := delete "a"%string (bans wFar); reads := S (reads wFar) |}).2).
Proof.
  assert (bans wFar !! generateKey cfgBan2 reqA = Some banFar) as Hb
    by (vm_compute; reflexivity).
  assert (b_expiresAt banFar < Date_now (Host := hostOf [90000000]) (reads wFar))
    as Ht by (vm_compute; reflexivity).
  assert (generateKey cfgBan2 reqA ∉ whitelist cfgBan2) as Hwl
    by (vm_compute; apply not_elem_of_nil).
  assert (generateKey cfgBan2 reqA ∉ blacklist cfgBan2) as Hbl
    by (vm_compute; apply not_elem_of_nil).
  split; [exact Hb|]. split; [exact Ht|]. split; [vm_compute; reflexivity|].
  apply (proj1 (proj2 (proj2 (expired_ban_is_lifted_by_next_request
           (host := hostOf [90000000]) cfgBan2 false reqA wFar banFar
           eq_refl eq_refl Hwl Hbl Hb Ht)))).
  vm_compute. reflexivity.
Defined.
